(** * The Pseudo language server: completion and diagnostics

    A shallow embedding of [src/language-server.ts] (the completion
    provider, the completion-resolve provider and the document validator)
    together with the JavaScript string and regular-expression operations
    these handlers rely on. *)

From Stdlib Require Import ZArith NArith String Ascii Lia Bool Sorted.
From stdpp Require Import base option list gmap.

Local Open Scope Z_scope.

(** ** JavaScript strings

    A JavaScript string is a sequence of UTF-16 code units.  Code units are
    numbers below 65536; string literals of the source are written through
    [u16]. *)

Module JS.

Definition char16 := N.
Definition jsstring := list char16.

Fixpoint u16 (s : string) : jsstring :=
  match s with
  | EmptyString => []
  | String a s' => N_of_ascii a :: u16 s'
  end.

Definition newline : char16 := 10%N.
Definition space : char16 := 32%N.
Definition dquote : char16 := 34%N.
Definition colon : char16 := 58%N.
Definition underscore : char16 := 95%N.

Definition between (lo hi c : char16) : bool := (lo <=? c)%N && (c <=? hi)%N.
Arguments between (lo hi c)%_N_scope.

(** The class [\s]: WhiteSpace and LineTerminator code units. *)
Definition is_white_space (c : char16) : bool :=
  between 9 13 c            (* \t \n \v \f \r *)
  || (c =? 32)%N            (* space *)
  || (c =? 160)%N           (* U+00A0 *)
  || (c =? 5760)%N          (* U+1680 *)
  || between 8192 8202 c    (* U+2000 .. U+200A *)
  || between 8232 8233 c    (* U+2028, U+2029 *)
  || (c =? 8239)%N          (* U+202F *)
  || (c =? 8287)%N          (* U+205F *)
  || (c =? 12288)%N         (* U+3000 *)
  || (c =? 65279)%N.        (* U+FEFF *)

(** The class [\w]: [A-Za-z0-9_]. *)
Definition is_word_char (c : char16) : bool :=
  between 65 90 c || between 97 122 c || between 48 57 c || (c =? underscore)%N.

(** [s.split(sep)] for a one-unit separator: never empty, one more piece
    than there are separators. *)
Fixpoint split (sep : char16) (s : jsstring) : list jsstring :=
  match s with
  | [] => [[]]
  | c :: s' =>
      if (c =? sep)%N then [] :: split sep s'
      else match split sep s' with
           | piece :: pieces => (c :: piece) :: pieces
           | [] => [[c]]
           end
  end.

(** [arr[i]] for an integral index: [None] stands for [undefined]. *)
Definition at_index {A} (arr : list A) (i : Z) : option A :=
  if i <? 0 then None else arr !! Z.to_nat i.

(** [s.substring(start, end)]: both bounds are clamped to [0, s.length] and
    swapped when out of order. *)
Definition clamp (len : nat) (i : Z) : nat := Nat.min (Z.to_nat i) len.

Definition substring (s : jsstring) (start finish : Z) : jsstring :=
  let a := clamp (length s) start in
  let b := clamp (length s) finish in
  let from := Nat.min a b in
  let to := Nat.max a b in
  take (to - from) (drop from s).

Fixpoint startsWith (s p : jsstring) {struct p} : bool :=
  match p, s with
  | [], _ => true
  | _ :: _, [] => false
  | x :: p', y :: s' => (x =? y)%N && startsWith s' p'
  end.

(** [s.indexOf(p)]: the least position at which [p] occurs, [-1] if none. *)
Fixpoint indexOf_from (k : Z) (s p : jsstring) : Z :=
  if startsWith s p then k
  else match s with
       | [] => -1
       | _ :: s' => indexOf_from (k + 1) s' p
       end.

Definition indexOf (s p : jsstring) : Z := indexOf_from 0 s p.

Definition includes (s p : jsstring) : bool := negb (indexOf s p =? -1).

End JS.
Import JS.

(** ** Regular expressions

    The four expressions of the server are sequences of anchors, character
    classes, greedy repetitions of a class and an alternation of words, some
    of them inside a capturing group.  [match_items] is the backtracking
    matcher: each item offers the lengths it can consume in priority order
    (longest first for a greedy repetition, left to right for an
    alternation) and the first choice under which the rest of the pattern
    matches is kept. *)

Module RegExp.

Inductive cclass :=
| Space                 (* \s *)
| Word                  (* \w *)
| Only (c : char16)     (* a literal code unit *)
| Except (c : char16).  (* [^c] *)

Definition in_class (k : cclass) (c : char16) : bool :=
  match k with
  | Space => is_white_space c
  | Word => is_word_char c
  | Only x => (c =? x)%N
  | Except x => negb (c =? x)%N
  end.

Inductive node :=
| Bol                               (* ^ *)
| Eol                               (* $ *)
| One (k : cclass)                  (* k *)
| Many (k : cclass) (least : nat)   (* k* is [Many k 0], k+ is [Many k 1] *)
| Words (ws : list jsstring).       (* w1|w2|... *)

Inductive item :=
| Plain (n : node)
| Capture (n : node).               (* ( n ) *)

Definition pattern := list item.

Record capture := { cap_index : nat; cap_text : jsstring }.

Definition node_of (it : item) : node :=
  match it with Plain n | Capture n => n end.

(** Length of the longest prefix of [s] made of units of class [k]. *)
Fixpoint run (k : cclass) (s : jsstring) : nat :=
  match s with
  | c :: s' => if in_class k c then S (run k s') else 0%nat
  | [] => 0%nat
  end.

(** [hi, hi-1, ..., lo] *)
Definition downto (hi lo : nat) : list nat := rev (seq lo (S hi - lo)).

Fixpoint word_choices (s : jsstring) (ws : list jsstring) : list nat :=
  match ws with
  | [] => []
  | w :: ws' =>
      if startsWith s w then length w :: word_choices s ws'
      else word_choices s ws'
  end.

Definition choices (n : node) (pos : nat) (s : jsstring) : list nat :=
  match n with
  | Bol => if (pos =? 0)%nat then [0%nat] else []
  | Eol => match s with [] => [0%nat] | _ => [] end
  | One k => match s with
             | c :: _ => if in_class k c then [1%nat] else []
             | [] => []
             end
  | Many k least => downto (run k s) least
  | Words ws => word_choices s ws
  end.

Fixpoint first_some {A B} (f : A -> option B) (l : list A) : option B :=
  match l with
  | [] => None
  | x :: l' => match f x with
               | Some y => Some y
               | None => first_some f l'
               end
  end.

Definition record_capture (it : item) (pos : nat) (txt : jsstring)
    (caps : list capture) : list capture :=
  match it with
  | Plain _ => caps
  | Capture _ => caps ++ [{| cap_index := pos; cap_text := txt |}]
  end.

Fixpoint match_items (p : pattern) (pos : nat) (s : jsstring)
    (caps : list capture) : option (list capture) :=
  match p with
  | [] => Some caps
  | it :: p' =>
      first_some
        (fun n => match_items p' (pos + n) (drop n s)
                    (record_capture it pos (take n s) caps))
        (choices (node_of it) pos s)
  end.

(** [re.exec(s)] without the global flag: the leftmost start position at
    which the pattern matches; the result lists the capturing groups. *)
Definition exec (p : pattern) (s : jsstring) : option (list capture) :=
  first_some (fun i => match_items p i (drop i s) []) (seq 0 (S (length s))).

Definition test (p : pattern) (s : jsstring) : bool :=
  match exec p s with Some _ => true | None => false end.

End RegExp.
Import RegExp.

(** ** Protocol data

    The parts of the language-server protocol types that the handlers read
    or write.  Numbers are integral; positions carry [Z] because the code
    computes them with [indexOf]. *)

Module Lsp.

Record Position := { line : Z; character : Z }.

Record Range := { range_start : Position; range_end : Position }.

Inductive CompletionItemKind :=
| Text | Method | Function_ | Constructor_ | Field | Variable_ | Class_
| Interface | Module_ | Property | Unit | Value | Enum | Keyword | Snippet
| Color | File | Reference | Folder | EnumMember | Constant | Struct
| Event | Operator | TypeParameter.

#[global] Instance CompletionItemKind_eq_dec : EqDecision CompletionItemKind.
Proof. solve_decision. Defined.

(** [others] stands for the optional properties of an item that the server
    neither reads nor writes (sortText, filterText, data, ...), by name. *)
Record CompletionItem := {
  label : jsstring;
  kind : option CompletionItemKind;
  detail : option jsstring;
  documentation : option jsstring;
  insertText : option jsstring;
  insertTextFormat : option Z;
  others : list (jsstring * jsstring)
}.

Inductive DiagnosticSeverity := Error | Warning | Information | Hint.

Record Diagnostic := {
  severity : DiagnosticSeverity;
  range : Range;
  message : jsstring;
  source : jsstring
}.

Record TextDocument := {
  uri : jsstring;
  version : Z;
  getText : jsstring
}.

Record TextDocumentPositionParams := {
  textDocument : jsstring;      (* textDocument.uri *)
  position : Position
}.

Record PublishDiagnosticsParams := {
  pd_uri : jsstring;
  diagnostics : list Diagnostic
}.

End Lsp.
Import Lsp.

(** ** Effects of a handler

    A handler writes to the connection (console lines, published
    diagnostics) and either returns or throws.  Console lines are kept by
    what they report rather than as rendered text. *)

Inductive Output :=
| LogCompletionRequested (p : Position)
| LogNoDocumentFound
| LogLineText (lineText : jsstring)
| LogBeforeCursor (beforeCursor : jsstring)
| LogSuggestingDeclarations
| LogReturning (n : nat)
| LogResolveRequested (label : jsstring)
| SendDiagnostics (p : PublishDiagnosticsParams).

Inductive JsError := TypeError.

Inductive Outcome (A : Type) :=
| Returned (a : A)
| Thrown (e : JsError).
Arguments Returned {A} a.
Arguments Thrown {A} e.

Record Run (A : Type) := { trace : list Output; outcome : Outcome A }.
Arguments trace {A} r.
Arguments outcome {A} r.

#[global] Instance Run_ret : MRet Run :=
  fun A a => {| trace := []; outcome := Returned a |}.

#[global] Instance Run_bind : MBind Run :=
  fun A B k m =>
    match outcome m with
    | Returned a => {| trace := trace m ++ trace (k a); outcome := outcome (k a) |}
    | Thrown e => {| trace := trace m; outcome := Thrown e |}
    end.

Definition emit (o : Output) : Run unit :=
  {| trace := [o]; outcome := Returned tt |}.

Definition throw {A} (e : JsError) : Run A :=
  {| trace := []; outcome := Thrown e |}.

(** Reading a property of a value that may be [undefined]. *)
Definition defined {A} (v : option A) : Run A :=
  match v with
  | Some a => mret a
  | None => throw TypeError
  end.

(** ** The server *)

(** [arr.forEach(f)] where [f] updates a local variable, and the same with
    the element's index; [arr.push(x)]. *)
Definition forEach {A St} (arr : list A) (f : A -> St -> St) (st : St) : St :=
  fold_left (fun st a => f a st) arr st.

Fixpoint forEach_indexed {A St} (i : nat) (arr : list A)
    (f : A -> nat -> St -> St) (st : St) : St :=
  match arr with
  | [] => st
  | a :: arr' => forEach_indexed (S i) arr' f (f a i st)
  end.

Definition push {A} (x : A) (arr : list A) : list A := arr ++ [x].

Module KEYWORDS.

Definition declarations : list jsstring :=
  map u16 ["app"; "domain"; "feature"; "model"; "component"; "page";
           "request"; "response"; "route"; "auth"; "guard"; "form";
           "service"; "repository"; "config"; "event"; "state"]%string.

Definition types : list jsstring :=
  map u16 ["string"; "number"; "boolean"; "date"; "email"; "url"; "uuid";
           "array"; "object"]%string.

Definition modifiers : list jsstring :=
  map u16 ["required"; "optional"; "unique"; "indexed"; "default"]%string.

Definition actions : list jsstring :=
  map u16 ["create"; "update"; "delete"; "query"; "list"; "show"; "hide";
           "toggle"; "validate"; "redirect"; "authenticate"; "authorize";
           "transform"; "filter"; "sort"; "paginate"]%string.

Definition control : list jsstring :=
  map u16 ["if"; "else"; "when"; "for each"; "try"; "catch"; "return"]%string.

Definition properties : list jsstring :=
  map u16 ["path"; "guard"; "description"; "language"; "framework";
           "database"; "styling"; "components"; "authentication"]%string.

End KEYWORDS.

(** The items pushed by the four loops of [onCompletion]. *)
Definition declarationItem (keyword : jsstring) : CompletionItem :=
  {| label := keyword;
     kind := Some Keyword;
     detail := Some (keyword ++ u16 " declaration");
     documentation := None;
     insertText :=
       Some (if decide (keyword = u16 "app")
             then keyword ++ [space; dquote] ++ u16 "${1:ProjectName}" ++ [dquote; colon]
             else keyword ++ [space; dquote] ++ u16 "${1:Name}" ++ [dquote; colon]);
     insertTextFormat := Some 2;   (* Snippet format *)
     others := [] |}.

Definition plainItem (k : CompletionItemKind) (suffix : string) (word : jsstring)
    : CompletionItem :=
  {| label := word;
     kind := Some k;
     detail := Some (word ++ u16 suffix);
     documentation := None;
     insertText := None;
     insertTextFormat := None;
     others := [] |}.

Definition propertyItem := plainItem Property " property".
Definition actionItem := plainItem Method " action".
Definition typeItem := plainItem TypeParameter " type".
Definition modifierItem := plainItem Keyword " modifier".

(** /^\s*$/ *)
Definition lineStartPattern : pattern :=
  [Plain Bol; Plain (Many Space 0); Plain Eol].

(** /:\s*$/ *)
Definition afterColonPattern : pattern :=
  [Plain (One (Only colon)); Plain (Many Space 0); Plain Eol].

(** /:\s*\w*$/ *)
Definition typePattern : pattern :=
  [Plain (One (Only colon)); Plain (Many Space 0); Plain (Many Word 0); Plain Eol].

(** /^\s*(app|domain|...|state)\s+([^:]+):\s*$/ *)
Definition declarationPattern : pattern :=
  [Plain Bol; Plain (Many Space 0);
   Capture (Words (map u16
     ["app"; "domain"; "feature"; "model"; "component"; "page"; "request";
      "response"; "route"; "auth"; "guard"; "form"; "service"; "repository";
      "config"; "event"; "state"]%string));
   Plain (Many Space 1);
   Capture (Many (Except colon) 1);
   Plain (One (Only colon)); Plain (Many Space 0); Plain Eol].

(** connection.onCompletion *)
Definition onCompletion (documents : gmap jsstring TextDocument)
    (params : TextDocumentPositionParams) : Run (list CompletionItem) :=
  emit (LogCompletionRequested (position params));;
  match documents !! textDocument params with
  | None => emit LogNoDocumentFound;; mret []
  | Some document =>
      let text := getText document in
      let position := position params in
      let lineText := at_index (split newline text) (line position) in
      (* lineText.substring throws when lineText is undefined *)
      lineText ← defined lineText;
      let beforeCursor := substring lineText 0 (character position) in
      let completions : list CompletionItem := [] in
      emit (LogLineText lineText);;
      emit (LogBeforeCursor beforeCursor);;
      completions ←
        (if test lineStartPattern beforeCursor then
           emit LogSuggestingDeclarations;;
           mret (forEach KEYWORDS.declarations
                   (fun keyword => push (declarationItem keyword)) completions)
         else mret completions);
      let completions :=
        if test afterColonPattern beforeCursor then
          let completions :=
            forEach KEYWORDS.properties
              (fun prop => push (propertyItem prop)) completions in
          forEach KEYWORDS.actions
            (fun action => push (actionItem action)) completions
        else completions in
      let completions :=
        if test typePattern beforeCursor then
          forEach KEYWORDS.types (fun type => push (typeItem type)) completions
        else completions in
      let completions :=
        forEach KEYWORDS.modifiers
          (fun modifier => push (modifierItem modifier)) completions in
      emit (LogReturning (length completions));;
      mret completions
  end.

(** connection.onCompletionResolve.  The handler assigns to a property of
    the item it was given and returns that same item. *)
Definition onCompletionResolve (item : CompletionItem) : Run CompletionItem :=
  emit (LogResolveRequested (label item));;
  let item :=
    if decide (kind item = Some Keyword) then
      {| label := label item;
         kind := kind item;
         detail := detail item;
         documentation := Some (label item ++ u16 " - A pseudolang keyword");
         insertText := insertText item;
         insertTextFormat := insertTextFormat item;
         others := others item |}
    else item in
  mret item.

(** The callback of [lines.forEach] in [validateTextDocument]. *)
Definition checkLine (line : jsstring) (lineNumber : nat)
    (diagnostics : list Diagnostic) : list Diagnostic :=
  match exec declarationPattern line with
  | Some [keyword; name] =>
      let keyword := cap_text keyword in
      let name := cap_text name in
      if includes name [space] && negb (startsWith name [dquote]) then
        push {| severity := Warning;
                range :=
                  {| range_start :=
                       {| line := Z.of_nat lineNumber;
                          character := indexOf line name |};
                     range_end :=
                       {| line := Z.of_nat lineNumber;
                          character := indexOf line name + Z.of_nat (length name) |} |};
                message :=
                  u16 "Multi-word " ++ keyword ++ u16 " names should be quoted: "
                  ++ [dquote] ++ name ++ [dquote];
                source := u16 "pseudo-lang" |} diagnostics
      else diagnostics
  | _ => diagnostics
  end.

Definition scan (text : jsstring) : list Diagnostic :=
  let diagnostics : list Diagnostic := [] in
  let lines := split newline text in
  forEach_indexed 0 lines checkLine diagnostics.

Definition validateTextDocument (textDocument : TextDocument) : Run unit :=
  let text := getText textDocument in
  emit (SendDiagnostics {| pd_uri := uri textDocument; diagnostics := scan text |}).

(** ** The classification rules and the catalog, as the specification names them *)

Inductive Category := Declarations | Properties | Actions | Types | Modifiers.

Definition catalog (c : Category) : list jsstring :=
  match c with
  | Declarations => KEYWORDS.declarations
  | Properties => KEYWORDS.properties
  | Actions => KEYWORDS.actions
  | Types => KEYWORDS.types
  | Modifiers => KEYWORDS.modifiers
  end.

Definition candidate (c : Category) : jsstring -> CompletionItem :=
  match c with
  | Declarations => declarationItem
  | Properties => propertyItem
  | Actions => actionItem
  | Types => typeItem
  | Modifiers => modifierItem
  end.

Inductive Rule := LineStart | AfterColon | TypePosition | Always.

Definition fires (r : Rule) (prefix : jsstring) : bool :=
  match r with
  | LineStart => test lineStartPattern prefix
  | AfterColon => test afterColonPattern prefix
  | TypePosition => test typePattern prefix
  | Always => true
  end.

Definition sources (r : Rule) : list Category :=
  match r with
  | LineStart => [Declarations]
  | AfterColon => [Properties; Actions]
  | TypePosition => [Types]
  | Always => [Modifiers]
  end.

Definition offer (c : Category) : list CompletionItem := map (candidate c) (catalog c).

Definition contribution (r : Rule) (prefix : jsstring) : list CompletionItem :=
  if fires r prefix then concat (map offer (sources r)) else [].

(** The contributions of the rules that fire, in rule order. *)
Definition ruleUnion (prefix : jsstring) : list CompletionItem :=
  contribution LineStart prefix ++ contribution AfterColon prefix
  ++ contribution TypePosition prefix ++ contribution Always prefix.



Definition lineCount (document : TextDocument) : Z :=
  Z.of_nat (length (split newline (getText document))).

(** The diagnostic of [checkLine], by line, columns, keyword and name. *)
Definition warningAt (l from to : Z) (keyword name : jsstring) : Diagnostic :=
  {| severity := Warning;
     range := {| range_start := {| line := l; character := from |};
                 range_end := {| line := l; character := to |} |};
     message := u16 "Multi-word " ++ keyword ++ u16 " names should be quoted: "
                ++ [dquote] ++ name ++ [dquote];
     source := u16 "pseudo-lang" |}.

(** A capture lies in [line] where it says it does. *)
Definition located (line : jsstring) (c : capture) : Prop :=
  take (length (cap_text c)) (drop (cap_index c) line) = cap_text c.

Fixpoint groups (p : pattern) : nat :=
  match p with
  | [] => 0%nat
  | Plain _ :: p' => groups p'
  | Capture _ :: p' => S (groups p')
  end.

(** A one-document store and a request against it, for examples. *)

Definition sampleDocument (text : jsstring) : TextDocument :=
  {| uri := u16 "file:///a.pseudo"; version := 1; getText := text |}.

Definition sampleStore (text : jsstring) : gmap jsstring TextDocument :=
  {[ u16 "file:///a.pseudo" := sampleDocument text ]}.

Definition requestAt (l c : Z) : TextDocumentPositionParams :=
  {| textDocument := u16 "file:///a.pseudo";
     position := {| line := l; character := c |} |}.

(** The parts of a declaration header:
    indent, keyword, gap, name, a colon, trailing white space. *)
Record headerParts := {
  indent : jsstring;
  keywordText : jsstring;
  gap : jsstring;
  nameText : jsstring;
  trailing : jsstring
}.

Definition assemble (h : headerParts) : jsstring :=
  indent h ++ keywordText h ++ gap h ++ nameText h ++ colon :: trailing h.

Definition blank (s : jsstring) : Prop := forallb is_white_space s = true.

Definition wellShaped (h : headerParts) : Prop :=
  blank (indent h)
  /\ In (keywordText h) KEYWORDS.declarations
  /\ gap h <> [] /\ blank (gap h)
  /\ nameText h <> [] /\ ~ In colon (nameText h)
  /\ blank (trailing h).

(** Where the name of a header starts in its line. *)
Definition nameColumn (h : headerParts) : nat :=
  (length (indent h) + length (keywordText h) + length (gap h))%nat.

Definition lineOf (d : Diagnostic) : Z := line (range_start (range d)).

(** A diagnostic moved down by [k] lines. *)
Definition shiftLines (k : Z) (d : Diagnostic) : Diagnostic :=
  {| severity := severity d;
     range :=
       {| range_start :=
            {| line := line (range_start (range d)) + k;
               character := character (range_start (range d)) |};
          range_end :=
            {| line := line (range_end (range d)) + k;
               character := character (range_end (range d)) |} |};
     message := message d;
     source := source d |}.

(** [p] matches the whole of [s], wherever [s] starts and whatever was
    captured before. *)
Definition accepts (p : pattern) (s : jsstring) : Prop :=
  forall pos caps, exists out, match_items p pos s caps = Some out.

(** The shapes of the text before the cursor that the classification rules
    name: a colon followed only by white space, and a colon followed by
    white space and then word units only. *)
Definition afterColonShape (prefix : jsstring) : Prop :=
  exists pre ws, prefix = pre ++ colon :: ws /\ blank ws.

Definition typePositionShape (prefix : jsstring) : Prop :=
  exists pre ws w,
    prefix = pre ++ colon :: ws ++ w
    /\ blank ws /\ forallb is_word_char w = true.






(** ** Start-up: connection.onInitialize and connection.onInitialized

    The three module-level flags are the state the two handlers share. *)

Module Startup.

Record WorkspaceClientCapabilities := {
  configuration : option bool;
  workspaceFolders : option bool
}.

Record PublishDiagnosticsClientCapabilities := {
  relatedInformation : option bool
}.

Record TextDocumentClientCapabilities := {
  publishDiagnostics : option PublishDiagnosticsClientCapabilities
}.

Record ClientCapabilities := {
  workspace : option WorkspaceClientCapabilities;
  textDocument : option TextDocumentClientCapabilities
}.

Record Flags := {
  hasConfigurationCapability : bool;
  hasWorkspaceFolderCapability : bool;
  hasDiagnosticRelatedInformationCapability : bool
}.

Definition initialFlags : Flags :=
  {| hasConfigurationCapability := false;
     hasWorkspaceFolderCapability := false;
     hasDiagnosticRelatedInformationCapability := false |}.

(** [!!v] for an optional boolean property. *)
Definition truthy (v : option bool) : bool :=
  match v with Some b => b | None => false end.

Inductive TextDocumentSyncKind := NoSync | Full | Incremental.

Record CompletionOptions := {
  resolveProvider : bool;
  triggerCharacters : list jsstring
}.

(** [workspaceFoldersSupported] is [workspace.workspaceFolders.supported];
    [None] when the result has no [workspace] property. *)
Record ServerCapabilities := {
  textDocumentSync : TextDocumentSyncKind;
  completionProvider : CompletionOptions;
  workspaceFoldersSupported : option bool
}.

Definition onInitialize (capabilities : ClientCapabilities) (flags : Flags)
    : Flags * ServerCapabilities :=
  let hasConfiguration :=
    match workspace capabilities with
    | Some w => truthy (configuration w)
    | None => false
    end in
  let hasWorkspaceFolder :=
    match workspace capabilities with
    | Some w => truthy (workspaceFolders w)
    | None => false
    end in
  let hasRelatedInformation :=
    match textDocument capabilities with
    | Some t => match publishDiagnostics t with
                | Some p => truthy (relatedInformation p)
                | None => false
                end
    | None => false
    end in
  let flags :=
    {| hasConfigurationCapability := hasConfiguration;
       hasWorkspaceFolderCapability := hasWorkspaceFolder;
       hasDiagnosticRelatedInformationCapability := hasRelatedInformation |} in
  let result :=
    {| textDocumentSync := Incremental;
       completionProvider :=
         {| resolveProvider := true;
            triggerCharacters := [[space]; [colon]; [dquote]] |};
       workspaceFoldersSupported := None |} in
  let result :=
    if hasWorkspaceFolderCapability flags then
      {| textDocumentSync := textDocumentSync result;
         completionProvider := completionProvider result;
         workspaceFoldersSupported := Some true |}
    else result in
  (flags, result).

Inductive Effect :=
| LogInitialized
| RegisterDidChangeConfiguration
| ListenWorkspaceFolderChanges.

Definition onInitialized (flags : Flags) : list Effect :=
  let done := [LogInitialized] in
  let done :=
    if hasConfigurationCapability flags
    then done ++ [RegisterDidChangeConfiguration] else done in
  if hasWorkspaceFolderCapability flags
  then done ++ [ListenWorkspaceFolderChanges] else done.

End Startup.

(** ** Lists, strings and the matcher *)

Section Lists.
Context {A B : Type}.

Lemma forEach_push (f : A -> B) (l : list A) (acc : list B) :
  forEach l (fun a => push (f a)) acc = acc ++ map f l.
Proof.
  unfold forEach. revert acc.
  induction l as [|a l IH]; intros acc; simpl.
  - now rewrite app_nil_r.
  - rewrite IH. unfold push. now rewrite <- app_assoc.
Qed.

Lemma first_some_found (f : A -> option B) (l : list A) (x : A) (y : B) :
  In x l -> f x = Some y -> exists y', first_some f l = Some y'.
Proof.
  induction l as [|a l IH]; simpl; [tauto|].
  intros [->|Hin] Hx.
  - rewrite Hx. eauto.
  - destruct (f a); eauto.
Qed.

Lemma first_some_none (f : A -> option B) (l : list A) :
  (forall x, In x l -> f x = None) -> first_some f l = None.
Proof.
  induction l as [|a l IH]; simpl; intros H; [reflexivity|].
  rewrite (H a) by now left. apply IH. intros x Hx. apply H. now right.
Qed.

Lemma first_some_head (f : A -> option B) (x : A) (l : list A) (y : B) :
  f x = Some y -> first_some f (x :: l) = Some y.
Proof. simpl. now intros ->. Qed.

End Lists.

Lemma at_index_in_range {A} (arr : list A) (i : Z) :
  0 <= i < Z.of_nat (length arr) -> exists x, at_index arr i = Some x.
Proof.
  intros [H0 H1]. unfold at_index.
  destruct (Z.ltb_spec i 0) as [|_]; [lia|].
  destruct (arr !! Z.to_nat i) eqn:E; [eauto|].
  apply lookup_ge_None in E. lia.
Qed.

Lemma at_index_out_of_range {A} (arr : list A) (i : Z) :
  Z.of_nat (length arr) <= i -> at_index arr i = None.
Proof.
  intros H. unfold at_index.
  destruct (Z.ltb_spec i 0) as [|_]; [reflexivity|].
  apply lookup_ge_None. lia.
Qed.

Lemma substring_prefix_clamped (s : jsstring) (n : Z) :
  Z.of_nat (length s) <= n -> substring s 0 n = s.
Proof.
  intros H. unfold substring, clamp.
  change (Z.to_nat 0) with 0%nat.
  rewrite !Nat.min_0_l, Nat.max_0_l, Nat.sub_0_r, drop_0.
  apply firstn_all2. lia.
Qed.

Lemma downto_head (hi lo : nat) :
  (lo <= hi)%nat -> exists rest, downto hi lo = hi :: rest.
Proof.
  intros H. unfold downto.
  replace (S hi - lo)%nat with (S (hi - lo)) by lia.
  rewrite seq_S, rev_app_distr. simpl.
  replace (lo + (hi - lo))%nat with hi by lia. eauto.
Qed.

Lemma downto_bound (hi lo n : nat) : In n (downto hi lo) -> (lo <= n <= hi)%nat.
Proof.
  unfold downto. rewrite <- in_rev, in_seq. lia.
Qed.

Lemma run_all (k : cclass) (s : jsstring) :
  forallb (in_class k) s = true -> run k s = length s.
Proof.
  induction s as [|c s IH]; simpl; [reflexivity|].
  intros H. apply andb_true_iff in H as [Hc Hs].
  rewrite Hc. now rewrite IH.
Qed.

Lemma run_short (k : cclass) (s : jsstring) (c : char16) :
  In c s -> in_class k c = false -> (run k s < length s)%nat.
Proof.
  induction s as [|x s IH]; simpl; [tauto|].
  intros [->|Hin] Hc.
  - rewrite Hc. lia.
  - destruct (in_class k x); [|lia]. specialize (IH Hin Hc). lia.
Qed.

(** *** The three patterns of the completion provider *)

Lemma exec_at (p : pattern) (s : jsstring) (i : nat) (caps : list capture) :
  (i <= length s)%nat -> match_items p i (drop i s) [] = Some caps ->
  test p s = true.
Proof.
  intros Hi Hm. unfold test, exec.
  destruct (first_some_found (fun i => match_items p i (drop i s) [])
              (seq 0 (S (length s))) i caps) as [y ->]; auto.
  apply in_seq. lia.
Qed.

Lemma bol_step (rest : pattern) (s : jsstring) (caps : list capture) :
  match_items (Plain Bol :: rest) 0 s caps = match_items rest 0 s caps.
Proof.
  cbn [match_items node_of choices record_capture Nat.eqb first_some].
  rewrite drop_0. now destruct (match_items rest _ s caps).
Qed.

Lemma bol_elsewhere (rest : pattern) (pos : nat) (s : jsstring)
    (caps : list capture) :
  match_items (Plain Bol :: rest) (S pos) s caps = None.
Proof. reflexivity. Qed.

Lemma one_step (k : cclass) (rest : pattern) (pos : nat) (c : char16)
    (s : jsstring) (caps : list capture) :
  in_class k c = true ->
  match_items (Plain (One k) :: rest) pos (c :: s) caps
  = match_items rest (pos + 1) s caps.
Proof.
  intros H. cbn [match_items node_of choices record_capture].
  rewrite H. cbn [first_some drop]. rewrite drop_0.
  now destruct (match_items rest _ s caps).
Qed.

Lemma many_step (k : cclass) (least : nat) (rest : pattern) (pos : nat)
    (s : jsstring) (caps : list capture) :
  match_items (Plain (Many k least) :: rest) pos s caps
  = first_some (fun n => match_items rest (pos + n) (drop n s) caps)
      (downto (run k s) least).
Proof. reflexivity. Qed.

Lemma many_then (k : cclass) (least : nat) (rest : pattern) (pos : nat)
    (s : jsstring) (caps out : list capture) :
  (least <= run k s)%nat ->
  match_items rest (pos + run k s) (drop (run k s) s) caps = Some out ->
  match_items (Plain (Many k least) :: rest) pos s caps = Some out.
Proof.
  intros Hle Hrest. rewrite many_step.
  destruct (downto_head (run k s) least Hle) as [tl ->].
  now apply first_some_head.
Qed.

Lemma eol_at_end (pos : nat) (caps : list capture) :
  match_items [Plain Eol] pos [] caps = Some caps.
Proof. reflexivity. Qed.

Lemma eol_before_end (rest : pattern) (pos : nat) (c : char16) (s : jsstring)
    (caps : list capture) :
  match_items (Plain Eol :: rest) pos (c :: s) caps = None.
Proof. reflexivity. Qed.

Lemma lineStart_blank (s : jsstring) :
  forallb is_white_space s = true -> test lineStartPattern s = true.
Proof.
  intros H. apply (exec_at _ _ 0%nat []); [lia|].
  unfold lineStartPattern. rewrite drop_0, bol_step.
  apply many_then; [lia|].
  rewrite (run_all Space s H), drop_all. apply eol_at_end.
Qed.

Lemma lineStart_not_blank (s : jsstring) (c : char16) :
  In c s -> is_white_space c = false -> test lineStartPattern s = false.
Proof.
  intros Hin Hc. unfold test, exec.
  rewrite first_some_none; [reflexivity|].
  intros i _. destruct i as [|i]; [|apply bol_elsewhere].
  unfold lineStartPattern. rewrite drop_0, bol_step, many_step.
  apply first_some_none. intros n Hn. apply downto_bound in Hn.
  pose proof (run_short Space s c Hin Hc) as Hlt.
  destruct (drop n s) eqn:E; [|apply eol_before_end].
  apply (f_equal length) in E. rewrite length_drop in E. simpl in E. lia.
Qed.

Lemma afterColon_fires (pre ws : jsstring) :
  forallb is_white_space ws = true ->
  test afterColonPattern (pre ++ colon :: ws) = true.
Proof.
  intros H. apply (exec_at _ _ (length pre) []).
  { rewrite length_app. simpl. lia. }
  rewrite drop_app_length. unfold afterColonPattern.
  rewrite one_step by reflexivity.
  apply many_then; [lia|].
  rewrite (run_all Space ws H), drop_all. apply eol_at_end.
Qed.

Lemma typePosition_fires (pre ws : jsstring) :
  forallb is_white_space ws = true ->
  test typePattern (pre ++ colon :: ws) = true.
Proof.
  intros H. apply (exec_at _ _ (length pre) []).
  { rewrite length_app. simpl. lia. }
  rewrite drop_app_length. unfold typePattern.
  rewrite one_step by reflexivity.
  apply many_then; [lia|].
  rewrite (run_all Space ws H), drop_all.
  apply many_then; [simpl; lia|]. apply eol_at_end.
Qed.

Lemma lineStart_silent_after_colon (pre ws : jsstring) :
  test lineStartPattern (pre ++ colon :: ws) = false.
Proof.
  apply (lineStart_not_blank _ colon); [|reflexivity].
  apply in_or_app. right. now left.
Qed.

(** ** The completion provider *)

Section Completion.
Variable documents : gmap jsstring TextDocument.
Variable params : TextDocumentPositionParams.

Lemma onCompletion_untracked :
  documents !! textDocument params = None ->
  onCompletion documents params
  = {| trace := [LogCompletionRequested (position params); LogNoDocumentFound];
       outcome := Returned [] |}.
Proof.
  intros H. unfold onCompletion. rewrite H. reflexivity.
Qed.

Lemma onCompletion_undefined_line (document : TextDocument) :
  documents !! textDocument params = Some document ->
  at_index (split newline (getText document)) (line (position params)) = None ->
  onCompletion documents params
  = {| trace := [LogCompletionRequested (position params)];
       outcome := Thrown TypeError |}.
Proof.
  intros Hd Hl. unfold onCompletion. rewrite Hd, Hl. reflexivity.
Qed.

Lemma onCompletion_run (document : TextDocument) (lineText : jsstring) :
  documents !! textDocument params = Some document ->
  at_index (split newline (getText document)) (line (position params))
  = Some lineText ->
  let prefix := substring lineText 0 (character (position params)) in
  onCompletion documents params
  = {| trace :=
         [LogCompletionRequested (position params); LogLineText lineText;
          LogBeforeCursor prefix]
         ++ (if fires LineStart prefix then [LogSuggestingDeclarations] else [])
         ++ [LogReturning (length (ruleUnion prefix))];
       outcome := Returned (ruleUnion prefix) |}.
Proof.
  intros Hd Hl. unfold onCompletion. rewrite Hd, Hl.
  cbn [mbind Run_bind mret Run_ret emit defined trace outcome app].
  generalize (substring lineText 0 (character (position params))).
  clear. intros prefix.
  unfold ruleUnion, contribution, fires, sources, offer, candidate, catalog.
  rewrite !forEach_push.
  cbn [mbind Run_bind mret Run_ret emit defined trace outcome app concat map].
  destruct (test lineStartPattern prefix), (test afterColonPattern prefix),
    (test typePattern prefix);
    cbn [mbind Run_bind mret Run_ret emit trace outcome];
    rewrite ?forEach_push, ?app_nil_r, ?app_nil_l, <- ?app_assoc; reflexivity.
Qed.

End Completion.

Lemma offer_member (c : Category) (keyword : jsstring) :
  In keyword (catalog c) -> In (candidate c keyword) (offer c).
Proof. apply in_map. Qed.

Lemma always_contributes (prefix : jsstring) :
  contribution Always prefix = offer Modifiers.
Proof. unfold contribution. cbn [fires sources map concat]. apply app_nil_r. Qed.


Lemma onCompletion_beyond_last_line (documents : gmap jsstring TextDocument)
    (params : TextDocumentPositionParams) (document : TextDocument) :
  documents !! textDocument params = Some document ->
  lineCount document <= line (position params) ->
  outcome (onCompletion documents params) = Thrown TypeError.
Proof.
  intros Hd Hl.
  rewrite (onCompletion_undefined_line _ _ document Hd); [reflexivity|].
  now apply at_index_out_of_range.
Qed.

Lemma sampleStore_lookup (text : jsstring) (l c : Z) :
  sampleStore text !! textDocument (requestAt l c) = Some (sampleDocument text).
Proof. apply lookup_singleton_eq. Qed.

(** *** Claims about completion *)

(** C1, where the code departs from it: a request whose line index is at or
    past the line count is not answered with an empty list.  On the
    one-line document "app", the request for line 1 makes [lineText]
    undefined and the call of [substring] on it throws a TypeError out of
    the handler, before anything but the first console line is written. *)
Theorem completion_beyond_last_line_throws :
  lineCount (sampleDocument (u16 "app")) = 1
  /\ onCompletion (sampleStore (u16 "app")) (requestAt 1 0)
     = {| trace := [LogCompletionRequested {| line := 1; character := 0 |}];
          outcome := Thrown TypeError |}.
Proof.
  split; [reflexivity|].
  apply (onCompletion_undefined_line (sampleStore (u16 "app")) (requestAt 1 0)
           (sampleDocument (u16 "app"))).
  - apply sampleStore_lookup.
  - reflexivity.
Qed.

(** C8: a request for a uri that the document store does not track is
    answered with the empty list of candidates; the handler reports the
    missing document on the console and returns normally. *)
Theorem completion_untracked_uri_empty (documents : gmap jsstring TextDocument)
    (params : TextDocumentPositionParams) :
  documents !! textDocument params = None ->
  outcome (onCompletion documents params) = Returned []
  /\ In LogNoDocumentFound (trace (onCompletion documents params)).
Proof.
  intros H. rewrite (onCompletion_untracked _ _ H).
  split; [reflexivity|]. right. now left.
Qed.

Lemma completion_untracked_uri_empty_witness :
  (∅ : gmap jsstring TextDocument) !! textDocument (requestAt 0 0) = None
  /\ outcome (onCompletion ∅ (requestAt 0 0)) = Returned []
  /\ In LogNoDocumentFound (trace (onCompletion ∅ (requestAt 0 0))).
Proof.
  split; [reflexivity|].
  apply (completion_untracked_uri_empty ∅ (requestAt 0 0)). reflexivity.
Defined.

(** C7: for a tracked document and a position on one of its lines, whatever
    the text before the cursor, the returned sequence holds a candidate for
    every keyword of the modifiers category. *)
Theorem completion_always_offers_modifiers
    (documents : gmap jsstring TextDocument)
    (params : TextDocumentPositionParams) (document : TextDocument) :
  documents !! textDocument params = Some document ->
  0 <= line (position params) < lineCount document ->
  exists items,
    outcome (onCompletion documents params) = Returned items
    /\ forall keyword, In keyword KEYWORDS.modifiers ->
         exists c, In c items /\ label c = keyword /\ c = modifierItem keyword.
Proof.
  intros Hd Hl.
  destruct (at_index_in_range _ _ Hl) as [lineText Hline].
  rewrite (onCompletion_run _ _ document lineText Hd Hline).
  eexists. split; [reflexivity|].
  intros keyword Hk. exists (modifierItem keyword).
  split; [|split; reflexivity].
  unfold ruleUnion. rewrite always_contributes.
  rewrite !in_app_iff. do 3 right.
  now apply (offer_member Modifiers).
Qed.

Lemma completion_always_offers_modifiers_witness :
  sampleStore (u16 "name: x") !! textDocument (requestAt 0 3)
  = Some (sampleDocument (u16 "name: x"))
  /\ 0 <= line (position (requestAt 0 3)) < lineCount (sampleDocument (u16 "name: x"))
  /\ exists items,
       outcome (onCompletion (sampleStore (u16 "name: x")) (requestAt 0 3))
       = Returned items
       /\ forall keyword, In keyword KEYWORDS.modifiers ->
            exists c, In c items /\ label c = keyword /\ c = modifierItem keyword.
Proof.
  split; [apply sampleStore_lookup|].
  split; [vm_compute; split; [discriminate|reflexivity]|].
  apply (completion_always_offers_modifiers _ _ (sampleDocument (u16 "name: x"))).
  - apply sampleStore_lookup.
  - vm_compute; split; [discriminate|reflexivity].
Defined.



(** C10: for a position on a line of the document whose character offset
    is past the end of that line, the handler returns normally: the text
    before the cursor is the whole line and the candidates are those the
    rules give for the whole line. *)
Theorem completion_character_clamped (documents : gmap jsstring TextDocument)
    (params : TextDocumentPositionParams) (document : TextDocument)
    (lineText : jsstring) :
  documents !! textDocument params = Some document ->
  at_index (split newline (getText document)) (line (position params))
  = Some lineText ->
  Z.of_nat (length lineText) < character (position params) ->
  substring lineText 0 (character (position params)) = lineText
  /\ In (LogBeforeCursor lineText) (trace (onCompletion documents params))
  /\ outcome (onCompletion documents params) = Returned (ruleUnion lineText).
Proof.
  intros Hd Hline Hch.
  assert (Hsub : substring lineText 0 (character (position params)) = lineText)
    by (apply substring_prefix_clamped; lia).
  rewrite (onCompletion_run _ _ document lineText Hd Hline). rewrite Hsub.
  split; [reflexivity|]. split; [|reflexivity].
  cbn [trace app]. right. right. now left.
Qed.

Lemma completion_character_clamped_witness :
  sampleStore (u16 "name:") !! textDocument (requestAt 0 100)
  = Some (sampleDocument (u16 "name:"))
  /\ at_index (split newline (getText (sampleDocument (u16 "name:"))))
       (line (position (requestAt 0 100))) = Some (u16 "name:")
  /\ Z.of_nat (length (u16 "name:")) < character (position (requestAt 0 100))
  /\ substring (u16 "name:") 0 (character (position (requestAt 0 100)))
     = u16 "name:"
  /\ In (LogBeforeCursor (u16 "name:"))
       (trace (onCompletion (sampleStore (u16 "name:")) (requestAt 0 100)))
  /\ outcome (onCompletion (sampleStore (u16 "name:")) (requestAt 0 100))
     = Returned (ruleUnion (u16 "name:")).
Proof.
  split; [apply sampleStore_lookup|].
  split; [reflexivity|]. split; [reflexivity|].
  apply (completion_character_clamped
           (sampleStore (u16 "name:")) (requestAt 0 100)
           (sampleDocument (u16 "name:")) (u16 "name:")).
  - apply sampleStore_lookup.
  - reflexivity.
  - reflexivity.
Defined.

(** ** The completion-resolve provider *)

(** C9: resolving a candidate cannot fail and consults nothing but the
    candidate itself (the handler has no access path to the document store
    and writes one console line).  The candidate comes back with its label,
    kind, detail, insertText, insertTextFormat and remaining properties as
    they were; its documentation is set to a text built from the label when
    its kind is Keyword and is left as it was otherwise. *)
Theorem resolve_only_documents_keywords (item : CompletionItem) :
  exists resolved,
    onCompletionResolve item
    = {| trace := [LogResolveRequested (label item)];
         outcome := Returned resolved |}
    /\ label resolved = label item
    /\ insertText resolved = insertText item
    /\ insertTextFormat resolved = insertTextFormat item
    /\ kind resolved = kind item
    /\ detail resolved = detail item
    /\ others resolved = others item
    /\ documentation resolved
       = if decide (kind item = Some Keyword)
         then Some (label item ++ u16 " - A pseudolang keyword")
         else documentation item.
Proof.
  unfold onCompletionResolve.
  destruct (decide (kind item = Some Keyword)); eexists; split;
    try reflexivity; repeat split.
Qed.

(** ** The validator *)

Lemma validate_publishes_scan (document : TextDocument) :
  validateTextDocument document
  = {| trace := [SendDiagnostics {| pd_uri := uri document;
                                    diagnostics := scan (getText document) |}];
       outcome := Returned tt |}.
Proof. reflexivity. Qed.

(** *** What the matcher returns *)

Lemma first_some_inv {A B} (f : A -> option B) (l : list A) (y : B) :
  first_some f l = Some y -> exists x, In x l /\ f x = Some y.
Proof.
  induction l as [|a l IH]; simpl; [discriminate|].
  destruct (f a) eqn:E.
  - intros [= <-]. exists a. split; [now left|assumption].
  - intros H. destruct (IH H) as [x [Hin Hx]]. exists x. split; [now right|assumption].
Qed.

Lemma take_length_take {A} (n : nat) (l : list A) :
  take (length (take n l)) l = take n l.
Proof.
  rewrite length_take.
  destruct (le_lt_dec n (length l)) as [H|H].
  - now rewrite Nat.min_l.
  - rewrite Nat.min_r by lia. now rewrite !take_ge by lia.
Qed.

Lemma match_items_groups (p : pattern) (pos : nat) (s : jsstring)
    (caps out : list capture) :
  match_items p pos s caps = Some out ->
  length out = (length caps + groups p)%nat.
Proof.
  revert pos s caps. induction p as [|it p IH]; intros pos s caps; simpl.
  - intros [= <-]. lia.
  - intros H. apply first_some_inv in H as [n [_ Hn]].
    apply IH in Hn. destruct it; simpl in *; [lia|].
    rewrite length_app in Hn. simpl in Hn. lia.
Qed.

Lemma match_items_located (line : jsstring) (p : pattern) (pos : nat)
    (caps out : list capture) :
  match_items p pos (drop pos line) caps = Some out ->
  Forall (located line) caps -> Forall (located line) out.
Proof.
  revert pos caps. induction p as [|it p IH]; intros pos caps; simpl.
  - now intros [= <-].
  - intros H Hcaps. apply first_some_inv in H as [n [_ Hn]].
    rewrite drop_drop in Hn. apply IH in Hn; [assumption|].
    destruct it; simpl; [assumption|].
    apply Forall_app. split; [assumption|].
    constructor; [|constructor]. unfold located. simpl.
    apply take_length_take.
Qed.

Lemma exec_inv (p : pattern) (s : jsstring) (out : list capture) :
  exec p s = Some out ->
  exists i, (i <= length s)%nat /\ match_items p i (drop i s) [] = Some out.
Proof.
  unfold exec. intros H. apply first_some_inv in H as [i [Hi Hm]].
  apply in_seq in Hi. exists i. split; [lia|assumption].
Qed.

Lemma declaration_captures (line : jsstring) (caps : list capture) :
  exec declarationPattern line = Some caps ->
  exists keyword name,
    caps = [keyword; name] /\ located line keyword /\ located line name.
Proof.
  intros H. apply exec_inv in H as [i [_ Hm]].
  pose proof (match_items_groups _ _ _ _ _ Hm) as Hlen.
  pose proof (match_items_located _ _ _ _ _ Hm (List.Forall_nil _)) as Hloc.
  destruct caps as [|keyword [|name [|extra caps]]]; try discriminate Hlen.
  exists keyword, name. split; [reflexivity|].
  inversion Hloc as [|? ? Hk Hrest]; subst.
  inversion Hrest; subst. now split.
Qed.

(** *** [startsWith], [indexOf], [includes] and [substring] *)

Lemma startsWith_take (s p : jsstring) :
  startsWith s p = true <-> take (length p) s = p.
Proof.
  revert s. induction p as [|x p IH]; intros s; simpl.
  - now destruct s.
  - destruct s as [|y s]; simpl; [split; discriminate|].
    rewrite andb_true_iff, N.eqb_eq, IH. split.
    + intros [-> ->]. reflexivity.
    + intros [= -> Hp]. split; [reflexivity|assumption].
Qed.

Lemma indexOf_from_found (k : Z) (s p : jsstring) (i : nat) :
  take (length p) (drop i s) = p ->
  exists j : nat,
    indexOf_from k s p = k + Z.of_nat j /\ (j <= i)%nat
    /\ take (length p) (drop j s) = p.
Proof.
  revert k i. induction s as [|c s IH]; intros k i Hocc.
  - exists 0%nat. rewrite drop_nil in Hocc. cbn [indexOf_from].
    apply startsWith_take in Hocc. rewrite Hocc.
    split; [lia|]. split; [lia|]. now apply startsWith_take.
  - cbn [indexOf_from]. destruct (startsWith (c :: s) p) eqn:E.
    + exists 0%nat. split; [lia|]. split; [lia|]. now apply startsWith_take.
    + destruct i as [|i].
      * apply startsWith_take in Hocc. rewrite drop_0 in Hocc. congruence.
      * destruct (IH (k + 1) i Hocc) as [j [Hj [Hle Hat]]].
        exists (S j). split; [lia|]. split; [lia|assumption].
Qed.

Lemma indexOf_found (s p : jsstring) (i : nat) :
  take (length p) (drop i s) = p ->
  exists j : nat,
    indexOf s p = Z.of_nat j /\ (j <= i)%nat
    /\ take (length p) (drop j s) = p.
Proof.
  intros H. destruct (indexOf_from_found 0 s p i H) as [j [Hj Hrest]].
  exists j. split; [apply Hj|assumption].
Qed.

Lemma indexOf_from_unit (c : char16) (s : jsstring) (k : Z) :
  0 <= k -> (indexOf_from k s [c] =? -1) = negb (existsb (N.eqb c) s).
Proof.
  revert k. induction s as [|x s IH]; intros k Hk;
    cbn [indexOf_from startsWith existsb].
  - reflexivity.
  - destruct (c =? x)%N; cbn [andb orb negb].
    + apply Z.eqb_neq. lia.
    + apply IH. lia.
Qed.

Lemma includes_unit (s : jsstring) (c : char16) :
  includes s [c] = true <-> In c s.
Proof.
  unfold includes, indexOf. rewrite indexOf_from_unit by lia.
  rewrite negb_involutive, existsb_exists. split.
  - intros [x [Hin Hx]]. apply N.eqb_eq in Hx. now subst.
  - intros Hin. exists c. split; [assumption|apply N.eqb_refl].
Qed.

Lemma startsWith_unit (s : jsstring) (c : char16) :
  startsWith s [c] = true <-> exists rest, s = c :: rest.
Proof.
  destruct s as [|x s]; simpl.
  - split; [discriminate|]. intros [rest H]. discriminate.
  - rewrite andb_true_r, N.eqb_eq. split.
    + intros ->. eauto.
    + now intros [rest [= -> _]].
Qed.

Lemma substring_take (s : jsstring) (j n : nat) :
  substring s (Z.of_nat j) (Z.of_nat j + Z.of_nat n) = take n (drop j s).
Proof.
  unfold substring, clamp. rewrite Nat2Z.id.
  replace (Z.to_nat (Z.of_nat j + Z.of_nat n)) with (j + n)%nat by lia.
  destruct (le_lt_dec j (length s)) as [Hj|Hj].
  - rewrite (Nat.min_l j) by lia.
    destruct (le_lt_dec (j + n) (length s)) as [Hn|Hn].
    + rewrite (Nat.min_l (j + n)), (Nat.min_l j), Nat.max_r by lia.
      f_equal. lia.
    + rewrite (Nat.min_r (j + n)), (Nat.min_l j), Nat.max_r by lia.
      rewrite !take_ge; rewrite ?length_drop; try lia. reflexivity.
  - rewrite (Nat.min_r j), (Nat.min_r (j + n)) by lia.
    rewrite Nat.min_id, Nat.max_id, Nat.sub_diag.
    rewrite (drop_ge s j) by lia. now rewrite take_nil.
Qed.

(** *** The line check in general *)

(** A line that is not a declaration header adds nothing. *)
Lemma checkLine_no_header (line : jsstring) (lineNumber : nat)
    (diagnostics : list Diagnostic) :
  exec declarationPattern line = None ->
  checkLine line lineNumber diagnostics = diagnostics.
Proof. intros H. unfold checkLine. now rewrite H. Qed.

(** On a declaration header the check adds one Warning exactly when the
    name holds a space and does not start with a quote; the message is made
    of the keyword and the name; the range starts where the text of the
    name first occurs in the line, which is at or before the place of the
    name, and covers a piece of the line equal to the name. *)
Lemma checkLine_header (line : jsstring) (lineNumber : nat)
    (diagnostics : list Diagnostic) (caps : list capture) :
  exec declarationPattern line = Some caps ->
  exists keyword name (from : nat),
    caps = [keyword; name]
    /\ indexOf line (cap_text name) = Z.of_nat from
    /\ (from <= cap_index name)%nat
    /\ substring line (Z.of_nat from)
         (Z.of_nat from + Z.of_nat (length (cap_text name)))
       = cap_text name
    /\ checkLine line lineNumber diagnostics
       = if includes (cap_text name) [space]
            && negb (startsWith (cap_text name) [dquote])
         then diagnostics
              ++ [warningAt (Z.of_nat lineNumber) (Z.of_nat from)
                    (Z.of_nat from + Z.of_nat (length (cap_text name)))
                    (cap_text keyword) (cap_text name)]
         else diagnostics.
Proof.
  intros H.
  destruct (declaration_captures line caps H) as [keyword [name [-> [_ Hname]]]].
  destruct (indexOf_found line (cap_text name) (cap_index name) Hname)
    as [from [Hfrom [Hle Hat]]].
  exists keyword, name, from.
  split; [reflexivity|]. split; [assumption|]. split; [assumption|].
  split; [now rewrite substring_take|].
  unfold checkLine. rewrite H, Hfrom. reflexivity.
Qed.

Lemma checkLine_appends (line : jsstring) (lineNumber : nat)
    (diagnostics : list Diagnostic) :
  checkLine line lineNumber diagnostics
  = diagnostics ++ checkLine line lineNumber [].
Proof.
  unfold checkLine, push.
  destruct (exec declarationPattern line) as [[|k [|n [|e caps]]]|];
    rewrite ?app_nil_r; try reflexivity.
  destruct (includes _ _ && negb _); now rewrite ?app_nil_r.
Qed.

Lemma forEach_indexed_checkLine (i : nat) (lines : list jsstring)
    (diagnostics : list Diagnostic) :
  forEach_indexed i lines checkLine diagnostics
  = diagnostics
    ++ concat (imap (fun j line => checkLine line (i + j) []) lines).
Proof.
  revert i diagnostics. induction lines as [|l lines IH]; intros i ds.
  - simpl. now rewrite app_nil_r.
  - cbn [forEach_indexed imap concat]. rewrite IH, (checkLine_appends l i ds).
    rewrite Nat.add_0_r, <- app_assoc. do 2 f_equal.
    f_equal. apply imap_ext. intros j x _. simpl. f_equal. lia.
Qed.

(** The published diagnostics are those of the lines, in line order. *)
Lemma scan_by_line (text : jsstring) :
  scan text
  = concat (imap (fun j line => checkLine line j []) (split newline text)).
Proof. unfold scan. now rewrite forEach_indexed_checkLine. Qed.

(** C3: on the one-line text [model User Profile:] the validator publishes
    exactly one diagnostic, a Warning over columns 6 to 18 of line 0, which
    hold "User Profile", with a message naming the keyword model; on
    [model "User Profile":] it publishes none; on [page Sign Up:] it
    publishes exactly one Warning; on [page "Sign Up":] none. *)
Theorem validate_examples (u : jsstring) (v : Z) :
  let published text :=
    trace (validateTextDocument {| uri := u; version := v; getText := text |}) in
  let report ds := [SendDiagnostics {| pd_uri := u; diagnostics := ds |}] in
  published (u16 "model User Profile:")
  = report [warningAt 0 6 18 (u16 "model") (u16 "User Profile")]
  /\ substring (u16 "model User Profile:") 6 18 = u16 "User Profile"
  /\ published (u16 "model " ++ [dquote] ++ u16 "User Profile" ++ [dquote; colon])
     = report []
  /\ published (u16 "page Sign Up:")
     = report [warningAt 0 5 12 (u16 "page") (u16 "Sign Up")]
  /\ published (u16 "page " ++ [dquote] ++ u16 "Sign Up" ++ [dquote; colon])
     = report [].
Proof.
  intros published report. subst published report. cbv beta.
  rewrite !validate_publishes_scan. cbn [trace uri getText].
  repeat split; repeat f_equal; vm_compute; reflexivity.
Qed.

(** C2, where the code departs from it: the range is placed by searching the
    line for the text of the name, so it lies on the first place where that
    text occurs.  In [model l l:] the name "l l" is captured at column 6,
    but its text first occurs at column 4 (the last letter of the keyword,
    the space, the first letter of the name) and the published range is
    columns 4 to 7, not 6 to 9. *)
Theorem diagnostic_range_at_first_occurrence :
  exec declarationPattern (u16 "model l l:")
  = Some [{| cap_index := 0; cap_text := u16 "model" |};
          {| cap_index := 6; cap_text := u16 "l l" |}]
  /\ scan (u16 "model l l:") = [warningAt 0 4 7 (u16 "model") (u16 "l l")]
  /\ indexOf (u16 "model l l:") (u16 "l l") = 4.
Proof. repeat split; vm_compute; reflexivity. Qed.

(** ** Further properties of the matcher and of the three completion patterns *)

Lemma match_items_cons_inv (it : item) (p : pattern) (pos : nat)
    (s : jsstring) (caps out : list capture) :
  match_items (it :: p) pos s caps = Some out ->
  exists n, In n (choices (node_of it) pos s)
            /\ match_items p (pos + n) (drop n s)
                 (record_capture it pos (take n s) caps) = Some out.
Proof. cbn [match_items]. apply first_some_inv. Qed.

Lemma match_items_cons_found (it : item) (p : pattern) (pos : nat)
    (s : jsstring) (caps out : list capture) (n : nat) :
  In n (choices (node_of it) pos s) ->
  match_items p (pos + n) (drop n s) (record_capture it pos (take n s) caps)
  = Some out ->
  exists out', match_items (it :: p) pos s caps = Some out'.
Proof.
  intros Hin Hm. cbn [match_items].
  apply (first_some_found _ _ n out); assumption.
Qed.

Lemma in_downto (hi lo n : nat) : In n (downto hi lo) <-> (lo <= n <= hi)%nat.
Proof. unfold downto. rewrite <- in_rev, in_seq. lia. Qed.

Lemma run_prefix (k : cclass) (s : jsstring) (n : nat) :
  (n <= run k s)%nat ->
  forallb (in_class k) (take n s) = true /\ (n <= length s)%nat.
Proof.
  revert n. induction s as [|c s IH]; intros n; simpl.
  - intros H. assert (n = 0%nat) as -> by lia. now split.
  - destruct n as [|n]; [intros _; split; [reflexivity|lia]|].
    destruct (in_class k c) eqn:E; [|lia].
    intros H. destruct (IH n) as [Hall Hlen]; [lia|].
    simpl. rewrite E, Hall. split; [reflexivity|lia].
Qed.

Lemma run_app_ge (k : cclass) (u v : jsstring) :
  forallb (in_class k) u = true -> (length u <= run k (u ++ v))%nat.
Proof.
  induction u as [|c u IH]; simpl; [lia|].
  intros H. apply andb_true_iff in H as [Hc Hu].
  rewrite Hc. specialize (IH Hu). lia.
Qed.

Lemma eol_inv (pos n : nat) (s : jsstring) :
  In n (choices Eol pos s) -> s = [] /\ n = 0%nat.
Proof. destruct s; simpl; [|tauto]. intros [<-|[]]. now split. Qed.

Lemma one_inv (k : cclass) (pos n : nat) (s : jsstring) :
  In n (choices (One k) pos s) ->
  exists c s', s = c :: s' /\ in_class k c = true /\ n = 1%nat.
Proof.
  destruct s as [|c s]; simpl; [tauto|].
  destruct (in_class k c) eqn:E; simpl; [|tauto].
  intros [<-|[]]. eauto.
Qed.

Lemma bol_inv (pos n : nat) (s : jsstring) :
  In n (choices Bol pos s) -> pos = 0%nat /\ n = 0%nat.
Proof.
  simpl. destruct pos; simpl; [|tauto]. intros [<-|[]]. now split.
Qed.

Lemma words_inv (ws : list jsstring) (pos n : nat) (s : jsstring) :
  In n (choices (Words ws) pos s) ->
  exists w, In w ws /\ startsWith s w = true /\ n = length w.
Proof.
  cbn [choices]. induction ws as [|w ws IH]; simpl; [tauto|].
  destruct (startsWith s w) eqn:E.
  - intros [<-|Hin].
    + exists w. auto.
    + destruct (IH Hin) as [w' [Hw' H]]. exists w'. auto.
  - intros Hin. destruct (IH Hin) as [w' [Hw' H]]. exists w'. auto.
Qed.

Lemma words_found (ws : list jsstring) (pos : nat) (s w : jsstring) :
  In w ws -> startsWith s w = true -> In (length w) (choices (Words ws) pos s).
Proof.
  cbn [choices]. induction ws as [|x ws IH]; simpl; [tauto|].
  intros [->|Hin] Hs.
  - rewrite Hs. now left.
  - destruct (startsWith s x); [right|]; now apply IH.
Qed.

Lemma word_char_not_space (c : char16) :
  is_word_char c = true -> is_white_space c = false.
Proof.
  unfold is_word_char, is_white_space, between, underscore.
  rewrite !orb_true_iff, !andb_true_iff, !N.leb_le, !N.eqb_eq.
  intros H.
  repeat (apply orb_false_intro);
    rewrite ?andb_false_iff, ?N.leb_gt, ?N.eqb_neq; lia.
Qed.

(** The start-of-line test is the test that every unit is white space. *)
Lemma lineStart_fires_iff (s : jsstring) :
  test lineStartPattern s = forallb is_white_space s.
Proof.
  destruct (forallb is_white_space s) eqn:E.
  - now apply lineStart_blank.
  - assert (exists c, In c s /\ is_white_space c = false) as [c [Hin Hc]].
    { clear -E. induction s as [|x s IH]; simpl in E; [discriminate|].
      destruct (is_white_space x) eqn:Ex.
      - destruct (IH E) as [c [Hin Hc]]. exists c. split; [now right|assumption].
      - exists x. split; [now left|assumption]. }
    now apply (lineStart_not_blank s c).
Qed.

Lemma afterColon_fires_iff (s : jsstring) :
  test afterColonPattern s = true
  <-> exists pre ws, s = pre ++ colon :: ws /\ forallb is_white_space ws = true.
Proof.
  split.
  - unfold test. destruct (exec afterColonPattern s) as [out|] eqn:E; [|discriminate].
    intros _. apply exec_inv in E as [i [Hi Hm]].
    unfold afterColonPattern in Hm.
    apply match_items_cons_inv in Hm as [n1 [H1 Hm]].
    apply one_inv in H1 as [c [s' [Hs [Hc ->]]]].
    apply N.eqb_eq in Hc. subst c. rewrite Hs in Hm. cbn [drop] in Hm.
    rewrite drop_0 in Hm.
    apply match_items_cons_inv in Hm as [n2 [H2 Hm]].
    apply in_downto in H2. destruct (run_prefix Space s' n2) as [Hws Hlen]; [lia|].
    apply match_items_cons_inv in Hm as [n3 [H3 _]].
    apply eol_inv in H3 as [Hend _].
    exists (take i s), s'. split.
    + now rewrite <- Hs, take_drop.
    + rewrite <- (take_drop n2 s'), Hend, app_nil_r. exact Hws.
  - intros [pre [ws [-> Hws]]]. now apply afterColon_fires.
Qed.

Lemma typePosition_fires_iff (s : jsstring) :
  test typePattern s = true
  <-> exists pre ws w,
        s = pre ++ colon :: ws ++ w
        /\ forallb is_white_space ws = true /\ forallb is_word_char w = true.
Proof.
  split.
  - unfold test. destruct (exec typePattern s) as [out|] eqn:E; [|discriminate].
    intros _. apply exec_inv in E as [i [Hi Hm]].
    unfold typePattern in Hm.
    apply match_items_cons_inv in Hm as [n1 [H1 Hm]].
    apply one_inv in H1 as [c [s' [Hs [Hc ->]]]].
    apply N.eqb_eq in Hc. subst c. rewrite Hs in Hm. cbn [drop] in Hm.
    rewrite drop_0 in Hm.
    apply match_items_cons_inv in Hm as [n2 [H2 Hm]].
    apply in_downto in H2. destruct (run_prefix Space s' n2) as [Hws _]; [lia|].
    apply match_items_cons_inv in Hm as [n3 [H3 Hm]].
    apply in_downto in H3.
    destruct (run_prefix Word (drop n2 s') n3) as [Hw _]; [lia|].
    apply match_items_cons_inv in Hm as [n4 [H4 _]].
    apply eol_inv in H4 as [Hend _].
    exists (take i s), (take n2 s'), (drop n2 s'). split; [|split].
    + now rewrite take_drop, <- Hs, take_drop.
    + exact Hws.
    + rewrite <- (take_drop n3 (drop n2 s')), Hend, app_nil_r. exact Hw.
  - intros [pre [ws [w [-> [Hws Hw]]]]].
    destruct (match_items_cons_found (Plain (Many Word 0)) [Plain Eol]
                (length pre + 1 + length ws) w [] [] (length w)) as [o1 H1].
    { apply in_downto. rewrite (run_all Word w Hw). lia. }
    { rewrite drop_all. reflexivity. }
    destruct (match_items_cons_found (Plain (Many Space 0))
                [Plain (Many Word 0); Plain Eol]
                (length pre + 1) (ws ++ w) [] o1 (length ws)) as [o2 H2].
    { apply in_downto. split; [lia|]. now apply (run_app_ge Space). }
    { rewrite drop_app_length. exact H1. }
    apply (exec_at _ _ (length pre) o2).
    { rewrite length_app. simpl. lia. }
    rewrite drop_app_length. unfold typePattern.
    rewrite one_step by reflexivity. exact H2.
Qed.

(** Whenever properties and actions are offered, types are offered too. *)
Lemma afterColon_implies_typePosition (s : jsstring) :
  test afterColonPattern s = true -> test typePattern s = true.
Proof.
  intros H. apply afterColon_fires_iff in H as [pre [ws [-> Hws]]].
  now apply typePosition_fires.
Qed.

Lemma typePosition_excludes_lineStart (s : jsstring) :
  test typePattern s = true -> test lineStartPattern s = false.
Proof.
  intros H. apply typePosition_fires_iff in H as [pre [ws [w [-> _]]]].
  apply lineStart_silent_after_colon.
Qed.

(** X1: the three tests of the completion provider read as shapes of the
    text before the cursor: the first holds exactly when every unit is white
    space (the empty text included); the second exactly when the text ends
    with a colon followed by white space only; the third exactly when it
    ends with a colon, white space, then word units only. *)
Theorem classification_rules_by_shape (prefix : jsstring) :
  fires LineStart prefix = forallb is_white_space prefix
  /\ (fires AfterColon prefix = true
      <-> exists pre ws,
            prefix = pre ++ colon :: ws /\ forallb is_white_space ws = true)
  /\ (fires TypePosition prefix = true
      <-> exists pre ws w,
            prefix = pre ++ colon :: ws ++ w
            /\ forallb is_white_space ws = true
            /\ forallb is_word_char w = true).
Proof.
  split; [apply lineStart_fires_iff|].
  split; [apply afterColon_fires_iff|apply typePosition_fires_iff].
Qed.

(** ** The answer, category by category and rule by rule *)

Lemma label_offer (c : Category) : map label (offer c) = catalog c.
Proof.
  unfold offer. rewrite List.map_map.
  rewrite <- (List.map_id (catalog c)) at 2.
  apply List.map_ext. intros keyword. now destruct c.
Qed.


Lemma ruleUnion_labels (prefix : jsstring) :
  map label (ruleUnion prefix)
  = (if test lineStartPattern prefix then KEYWORDS.declarations else [])
    ++ (if test afterColonPattern prefix
        then KEYWORDS.properties ++ KEYWORDS.actions else [])
    ++ (if test typePattern prefix then KEYWORDS.types else [])
    ++ KEYWORDS.modifiers.
Proof.
  unfold ruleUnion, contribution. cbn [fires sources map concat].
  rewrite !map_app, (label_offer Modifiers), app_nil_r.
  destruct (test lineStartPattern prefix), (test afterColonPattern prefix),
    (test typePattern prefix);
    rewrite ?map_app, ?app_nil_r, ?label_offer; reflexivity.
Qed.





(** C5: the labels of the candidates returned for a prefix are the keywords
    contributed by the rules LineStart (declarations, on a blank prefix),
    AfterColon (properties then actions, on a prefix ending with a colon
    and white space), TypePosition (types, on a prefix ending with a colon,
    white space and word units) and Always (modifiers), concatenated in
    that order; a rule that matches contributes whatever the others do, and
    a rule that does not match contributes nothing.  In particular, on a
    prefix that ends with a colon followed only by white space both
    AfterColon and TypePosition fire, and the answer is every properties
    keyword, every actions keyword, then every types keyword, then the
    modifiers. *)
Theorem completion_is_rule_union (documents : gmap jsstring TextDocument)
    (params : TextDocumentPositionParams) (document : TextDocument)
    (lineText : jsstring) :
  documents !! textDocument params = Some document ->
  at_index (split newline (getText document)) (line (position params))
  = Some lineText ->
  let prefix := substring lineText 0 (character (position params)) in
  exists items,
    outcome (onCompletion documents params) = Returned items
    /\ (exists fromLineStart fromAfterColon fromTypePosition,
          map label items
          = fromLineStart ++ fromAfterColon ++ fromTypePosition
            ++ KEYWORDS.modifiers
          /\ (blank prefix /\ fromLineStart = KEYWORDS.declarations
              \/ ~ blank prefix /\ fromLineStart = [])
          /\ (afterColonShape prefix
              /\ fromAfterColon = KEYWORDS.properties ++ KEYWORDS.actions
              \/ ~ afterColonShape prefix /\ fromAfterColon = [])
          /\ (typePositionShape prefix /\ fromTypePosition = KEYWORDS.types
              \/ ~ typePositionShape prefix /\ fromTypePosition = []))
    /\ forall pre ws,
         prefix = pre ++ colon :: ws -> blank ws ->
         fires AfterColon prefix = true /\ fires TypePosition prefix = true
         /\ map label items
            = KEYWORDS.properties ++ KEYWORDS.actions ++ KEYWORDS.types
              ++ KEYWORDS.modifiers.
Proof.
  intros Hd Hline prefix.
  rewrite (onCompletion_run _ _ document lineText Hd Hline). fold prefix.
  eexists. split; [reflexivity|]. split.
  - eexists. eexists. eexists. split; [apply ruleUnion_labels|].
    split; [|split].
    + rewrite lineStart_fires_iff. unfold blank.
      destruct (forallb is_white_space prefix); [left|right]; split;
        try reflexivity. discriminate.
    + destruct (test afterColonPattern prefix) eqn:E; [left|right]; split;
        try reflexivity.
      * now apply afterColon_fires_iff.
      * intros H. apply afterColon_fires_iff in H. congruence.
    + destruct (test typePattern prefix) eqn:E; [left|right]; split;
        try reflexivity.
      * now apply typePosition_fires_iff.
      * intros H. apply typePosition_fires_iff in H. congruence.
  - intros pre ws Hp Hws. cbn [fires]. rewrite ruleUnion_labels, Hp.
    rewrite lineStart_silent_after_colon, afterColon_fires, typePosition_fires
      by assumption.
    split; [reflexivity|]. split; [reflexivity|].
    now rewrite <- !app_assoc.
Qed.

Lemma completion_is_rule_union_witness :
  sampleStore (u16 "name: ") !! textDocument (requestAt 0 6)
  = Some (sampleDocument (u16 "name: "))
  /\ at_index (split newline (getText (sampleDocument (u16 "name: "))))
       (line (position (requestAt 0 6))) = Some (u16 "name: ")
  /\ substring (u16 "name: ") 0 6 = u16 "name" ++ colon :: [space]
  /\ blank [space]
  /\ exists items,
       outcome (onCompletion (sampleStore (u16 "name: ")) (requestAt 0 6))
       = Returned items
       /\ map label items
          = KEYWORDS.properties ++ KEYWORDS.actions ++ KEYWORDS.types
            ++ KEYWORDS.modifiers.
Proof.
  split; [apply sampleStore_lookup|].
  split; [reflexivity|]. split; [reflexivity|]. split; [reflexivity|].
  destruct (completion_is_rule_union
              (sampleStore (u16 "name: ")) (requestAt 0 6)
              (sampleDocument (u16 "name: ")) (u16 "name: ")
              (sampleStore_lookup _ _ _) eq_refl) as [items [Hout [_ Hcolon]]].
  exists items. split; [exact Hout|].
  apply (Hcolon (u16 "name") [space] eq_refl eq_refl).
Defined.

(** ** Further properties of the completion provider *)

Lemma substring_from_zero (s : jsstring) (n : Z) :
  substring s 0 n = take (Z.to_nat n) s.
Proof.
  unfold substring, clamp. change (Z.to_nat 0) with 0%nat.
  rewrite !Nat.min_0_l, Nat.max_0_l, Nat.sub_0_r, drop_0.
  destruct (le_lt_dec (Z.to_nat n) (length s)) as [H|H].
  - now rewrite Nat.min_l.
  - rewrite Nat.min_r by lia. now rewrite !take_ge by lia.
Qed.

Lemma at_index_None_iff {A} (arr : list A) (i : Z) :
  at_index arr i = None <-> i < 0 \/ Z.of_nat (length arr) <= i.
Proof.
  unfold at_index. destruct (Z.ltb_spec i 0) as [Hn|Hn].
  - split; [now left|reflexivity].
  - rewrite lookup_ge_None. lia.
Qed.

(** The four lists a request can be answered with. *)
Lemma ruleUnion_cases (prefix : jsstring) :
  ruleUnion prefix
  = if test lineStartPattern prefix then offer Declarations ++ offer Modifiers
    else if test afterColonPattern prefix
         then offer Properties ++ offer Actions ++ offer Types ++ offer Modifiers
    else if test typePattern prefix then offer Types ++ offer Modifiers
    else offer Modifiers.
Proof.
  unfold ruleUnion, contribution. cbn [fires sources map concat].
  destruct (test afterColonPattern prefix) eqn:Ea.
  - rewrite (afterColon_implies_typePosition _ Ea).
    rewrite (typePosition_excludes_lineStart _ (afterColon_implies_typePosition _ Ea)).
    now rewrite !app_nil_r, <- !app_assoc.
  - destruct (test typePattern prefix) eqn:Et.
    + rewrite (typePosition_excludes_lineStart _ Et). now rewrite !app_nil_r.
    + destruct (test lineStartPattern prefix); now rewrite !app_nil_r.
Qed.

(** X2: a request on a line of a tracked document is answered with one of
    four lists: the declarations then the modifiers (blank prefix); the
    properties, actions, types and modifiers (prefix ending in a colon and
    white space); the types then the modifiers (prefix ending in a colon,
    white space and a started word); or the modifiers alone.  Declarations
    are never mixed with properties, actions or types. *)
Theorem completion_one_of_four (documents : gmap jsstring TextDocument)
    (params : TextDocumentPositionParams) (document : TextDocument) :
  documents !! textDocument params = Some document ->
  0 <= line (position params) < lineCount document ->
  exists items,
    outcome (onCompletion documents params) = Returned items
    /\ (items = offer Declarations ++ offer Modifiers
        \/ items = offer Properties ++ offer Actions ++ offer Types
                   ++ offer Modifiers
        \/ items = offer Types ++ offer Modifiers
        \/ items = offer Modifiers)
    /\ In (length items) [22; 39; 14; 5]%nat.
Proof.
  intros Hd Hl.
  destruct (at_index_in_range _ _ Hl) as [lineText Hline].
  rewrite (onCompletion_run _ _ document lineText Hd Hline).
  eexists. split; [reflexivity|]. rewrite ruleUnion_cases.
  destruct (test lineStartPattern _); [split; [tauto|now left]|].
  destruct (test afterColonPattern _); [split; [tauto|right; now left]|].
  destruct (test typePattern _); [split; [tauto|do 2 right; now left]|].
  split; [tauto|do 3 right; now left].
Qed.

Lemma completion_one_of_four_witness :
  exists items,
    outcome (onCompletion (sampleStore (u16 "name: str")) (requestAt 0 9))
    = Returned items
    /\ (items = offer Declarations ++ offer Modifiers
        \/ items = offer Properties ++ offer Actions ++ offer Types
                   ++ offer Modifiers
        \/ items = offer Types ++ offer Modifiers
        \/ items = offer Modifiers)
    /\ In (length items) [22; 39; 14; 5]%nat.
Proof.
  apply (completion_one_of_four (sampleStore (u16 "name: str")) (requestAt 0 9)
           (sampleDocument (u16 "name: str"))).
  - apply sampleStore_lookup.
  - vm_compute; split; [discriminate|reflexivity].
Defined.

Lemma four_lists_distinct_labels :
  NoDup (map label (offer Declarations ++ offer Modifiers))
  /\ NoDup (map label (offer Properties ++ offer Actions ++ offer Types
                       ++ offer Modifiers))
  /\ NoDup (map label (offer Types ++ offer Modifiers))
  /\ NoDup (map label (offer Modifiers)).
Proof.
  repeat split; apply (bool_decide_unpack _); vm_compute; exact I.
Qed.

(** X3: no label occurs twice in an answer, although [guard] is both a
    declaration and a property: the two categories are never offered
    together. *)
Theorem completion_labels_distinct (documents : gmap jsstring TextDocument)
    (params : TextDocumentPositionParams) (document : TextDocument) :
  documents !! textDocument params = Some document ->
  0 <= line (position params) < lineCount document ->
  In (u16 "guard") KEYWORDS.declarations
  /\ In (u16 "guard") KEYWORDS.properties
  /\ exists items,
       outcome (onCompletion documents params) = Returned items
       /\ NoDup (map label items).
Proof.
  intros Hd Hl.
  split; [vm_compute; tauto|]. split; [vm_compute; tauto|].
  destruct (at_index_in_range _ _ Hl) as [lineText Hline].
  rewrite (onCompletion_run _ _ document lineText Hd Hline).
  eexists. split; [reflexivity|]. rewrite ruleUnion_cases.
  destruct four_lists_distinct_labels as [H1 [H2 [H3 H4]]].
  destruct (test lineStartPattern _); [exact H1|].
  destruct (test afterColonPattern _); [exact H2|].
  destruct (test typePattern _); [exact H3|exact H4].
Qed.

Lemma completion_labels_distinct_witness :
  exists items,
    outcome (onCompletion (sampleStore (u16 "route: ")) (requestAt 0 7))
    = Returned items
    /\ NoDup (map label items).
Proof.
  apply (completion_labels_distinct (sampleStore (u16 "route: ")) (requestAt 0 7)
           (sampleDocument (u16 "route: "))).
  - apply sampleStore_lookup.
  - vm_compute; split; [discriminate|reflexivity].
Defined.

Lemma offers_avoid_control :
  Forall (fun c => ~ In (label c) KEYWORDS.control)
    (offer Declarations ++ offer Properties ++ offer Actions ++ offer Types
     ++ offer Modifiers).
Proof. apply (bool_decide_unpack _). vm_compute. exact I. Qed.

(** X4: the control keywords (if, else, when, for each, try, catch, return)
    are never offered: no candidate of any answer is labelled with one. *)
Theorem completion_never_offers_control
    (documents : gmap jsstring TextDocument)
    (params : TextDocumentPositionParams) (items : list CompletionItem)
    (c : CompletionItem) :
  outcome (onCompletion documents params) = Returned items ->
  In c items -> ~ In (label c) KEYWORDS.control.
Proof.
  intros Hout Hin.
  destruct (documents !! textDocument params) as [document|] eqn:Hd.
  - destruct (at_index (split newline (getText document))
                (line (position params))) as [lineText|] eqn:Hline.
    + rewrite (onCompletion_run _ _ document lineText Hd Hline) in Hout.
      injection Hout as <-.
      pose proof offers_avoid_control as Hall.
      rewrite List.Forall_forall in Hall. apply Hall.
      rewrite ruleUnion_cases in Hin. rewrite !in_app_iff.
      destruct (test lineStartPattern _);
        [rewrite in_app_iff in Hin; tauto|].
      destruct (test afterColonPattern _);
        [rewrite !in_app_iff in Hin; tauto|].
      destruct (test typePattern _); [rewrite in_app_iff in Hin; tauto|tauto].
    + rewrite (onCompletion_undefined_line _ _ document Hd Hline) in Hout.
      discriminate.
  - rewrite (onCompletion_untracked _ _ Hd) in Hout.
    injection Hout as <-. destruct Hin.
Qed.

Lemma completion_never_offers_control_witness :
  exists items c,
    outcome (onCompletion (sampleStore (u16 "")) (requestAt 0 0)) = Returned items
    /\ In c items /\ ~ In (label c) KEYWORDS.control.
Proof.
  exists (offer Declarations ++ offer Modifiers), (declarationItem (u16 "app")).
  assert (Hout : outcome (onCompletion (sampleStore (u16 "")) (requestAt 0 0))
                 = Returned (offer Declarations ++ offer Modifiers))
    by (vm_compute; reflexivity).
  assert (Hin : In (declarationItem (u16 "app"))
                  (offer Declarations ++ offer Modifiers))
    by (vm_compute; tauto).
  split; [exact Hout|]. split; [exact Hin|].
  exact (completion_never_offers_control _ _ _ _ Hout Hin).
Defined.

(** X5: for a tracked document the handler throws exactly when the line
    index is outside the document (negative, or at or past the line count);
    on every line of the document it returns. *)
Theorem completion_throws_iff_line_outside
    (documents : gmap jsstring TextDocument)
    (params : TextDocumentPositionParams) (document : TextDocument) :
  documents !! textDocument params = Some document ->
  (outcome (onCompletion documents params) = Thrown TypeError
   <-> line (position params) < 0 \/ lineCount document <= line (position params))
  /\ (0 <= line (position params) < lineCount document
      -> exists items, outcome (onCompletion documents params) = Returned items).
Proof.
  intros Hd. split.
  - unfold lineCount. rewrite <- at_index_None_iff.
    destruct (at_index (split newline (getText document))
                (line (position params))) as [lineText|] eqn:Hline.
    + rewrite (onCompletion_run _ _ document lineText Hd Hline).
      split; discriminate.
    + rewrite (onCompletion_undefined_line _ _ document Hd Hline).
      split; reflexivity.
  - intros Hl. destruct (at_index_in_range _ _ Hl) as [lineText Hline].
    rewrite (onCompletion_run _ _ document lineText Hd Hline). eauto.
Qed.

Lemma completion_throws_iff_line_outside_witness :
  outcome (onCompletion (sampleStore (u16 "a")) (requestAt (-1) 0))
  = Thrown TypeError.
Proof.
  apply (proj1 (completion_throws_iff_line_outside
                  (sampleStore (u16 "a")) (requestAt (-1) 0)
                  (sampleDocument (u16 "a")) (sampleStore_lookup _ _ _))).
  left. reflexivity.
Defined.

Lemma split_not_empty (sep : char16) (s : jsstring) :
  (1 <= length (split sep s))%nat.
Proof.
  induction s as [|c s IH]; simpl; [lia|].
  destruct (c =? sep)%N; simpl; [lia|].
  destruct (split sep s); simpl in *; lia.
Qed.

(** X6: with the cursor at column 0 (or a character offset below 0) of the
    first line of any tracked document, the empty one included, the answer
    is exactly the declarations followed by the modifiers. *)
Theorem completion_at_document_start
    (documents : gmap jsstring TextDocument)
    (params : TextDocumentPositionParams) (document : TextDocument) :
  documents !! textDocument params = Some document ->
  line (position params) = 0 -> character (position params) <= 0 ->
  outcome (onCompletion documents params)
  = Returned (offer Declarations ++ offer Modifiers).
Proof.
  intros Hd Hl Hc.
  destruct (at_index_in_range (split newline (getText document))
              (line (position params))) as [lineText Hline].
  { pose proof (split_not_empty newline (getText document)). lia. }
  rewrite (onCompletion_run _ _ document lineText Hd Hline).
  cbn [outcome]. rewrite substring_from_zero.
  replace (Z.to_nat (character (position params))) with 0%nat by lia.
  rewrite take_0. f_equal.
Qed.

Lemma completion_at_document_start_witness :
  outcome (onCompletion (sampleStore []) (requestAt 0 0))
  = Returned (offer Declarations ++ offer Modifiers).
Proof.
  apply (completion_at_document_start (sampleStore []) (requestAt 0 0)
           (sampleDocument [])).
  - apply sampleStore_lookup.
  - reflexivity.
  - vm_compute. discriminate.
Defined.

(** X7: the answer depends on the line only through the text before the
    cursor: two requests, on whatever documents and lines, whose lines agree
    on their first [character] units get the same candidates. *)
Theorem completion_ignores_text_after_cursor
    (documents1 documents2 : gmap jsstring TextDocument)
    (params1 params2 : TextDocumentPositionParams)
    (document1 document2 : TextDocument) (line1 line2 : jsstring) :
  documents1 !! textDocument params1 = Some document1 ->
  documents2 !! textDocument params2 = Some document2 ->
  at_index (split newline (getText document1)) (line (position params1))
  = Some line1 ->
  at_index (split newline (getText document2)) (line (position params2))
  = Some line2 ->
  character (position params1) = character (position params2) ->
  take (Z.to_nat (character (position params1))) line1
  = take (Z.to_nat (character (position params1))) line2 ->
  outcome (onCompletion documents1 params1)
  = outcome (onCompletion documents2 params2).
Proof.
  intros Hd1 Hd2 Hl1 Hl2 Hc Ht.
  rewrite (onCompletion_run _ _ document1 line1 Hd1 Hl1).
  rewrite (onCompletion_run _ _ document2 line2 Hd2 Hl2).
  cbn [outcome]. rewrite !substring_from_zero, <- Hc, Ht. reflexivity.
Qed.

Lemma completion_ignores_text_after_cursor_witness :
  outcome (onCompletion (sampleStore (u16 "path: /a")) (requestAt 0 5))
  = outcome (onCompletion
               (sampleStore (u16 "x" ++ [newline] ++ u16 "path:"))
               (requestAt 1 5)).
Proof.
  apply (completion_ignores_text_after_cursor
           (sampleStore (u16 "path: /a"))
           (sampleStore (u16 "x" ++ [newline] ++ u16 "path:"))
           (requestAt 0 5) (requestAt 1 5)
           (sampleDocument (u16 "path: /a"))
           (sampleDocument (u16 "x" ++ [newline] ++ u16 "path:"))
           (u16 "path: /a") (u16 "path:")).
  - apply sampleStore_lookup.
  - apply sampleStore_lookup.
  - reflexivity.
  - reflexivity.
  - reflexivity.
  - reflexivity.
Defined.

(** X8: resolving is idempotent, and on the candidates the completion
    provider builds it documents exactly the declarations and the
    modifiers (the items of kind Keyword), leaving properties, actions and
    types as they are. *)
Theorem resolve_after_completion (item : CompletionItem) (keyword : jsstring) :
  (exists resolved,
     outcome (onCompletionResolve item) = Returned resolved
     /\ outcome (onCompletionResolve resolved) = Returned resolved)
  /\ (exists d m,
        outcome (onCompletionResolve (declarationItem keyword)) = Returned d
        /\ documentation d = Some (keyword ++ u16 " - A pseudolang keyword")
        /\ outcome (onCompletionResolve (modifierItem keyword)) = Returned m
        /\ documentation m = Some (keyword ++ u16 " - A pseudolang keyword"))
  /\ outcome (onCompletionResolve (propertyItem keyword))
     = Returned (propertyItem keyword)
  /\ outcome (onCompletionResolve (actionItem keyword))
     = Returned (actionItem keyword)
  /\ outcome (onCompletionResolve (typeItem keyword))
     = Returned (typeItem keyword).
Proof.
  split; [|split; [|repeat split]].
  - unfold onCompletionResolve.
    destruct (decide (kind item = Some Keyword)) as [Hk|Hk];
      eexists; (split; [reflexivity|]); cbn [mbind Run_bind emit outcome mret Run_ret kind].
    + destruct (decide (kind item = Some Keyword)); [reflexivity|contradiction].
    + destruct (decide (kind item = Some Keyword)); [contradiction|reflexivity].
  - eexists. eexists. repeat split.
Qed.

(** ** Further properties of the validator *)

Lemma except_colon_all (s : jsstring) :
  forallb (in_class (Except colon)) s = true <-> ~ In colon s.
Proof.
  induction s as [|c s IH]; simpl; [tauto|].
  rewrite andb_true_iff, IH, negb_true_iff, N.eqb_neq. intuition congruence.
Qed.

Lemma nonempty_length {A} (l : list A) : (1 <= length l)%nat <-> l <> [].
Proof. destruct l; simpl; split; try congruence; try lia. Qed.

(** Whatever the declaration pattern matches is a header: the line is
    indent, a declarations keyword, a non-empty gap of white space, a
    non-empty name without colon, a colon and trailing white space; the two
    captures are the keyword and the name, at their columns. *)
Lemma header_of_match (line : jsstring) (caps : list capture) :
  exec declarationPattern line = Some caps ->
  exists h,
    wellShaped h /\ line = assemble h
    /\ caps = [{| cap_index := length (indent h); cap_text := keywordText h |};
               {| cap_index := nameColumn h; cap_text := nameText h |}].
Proof.
  intros H. apply exec_inv in H as [i [_ Hm]]. unfold declarationPattern in Hm.
  apply match_items_cons_inv in Hm as [n0 [H0 Hm]].
  apply bol_inv in H0 as [-> ->]. cbn [record_capture] in Hm.
  rewrite !drop_0 in Hm.
  apply match_items_cons_inv in Hm as [n1 [H1 Hm]].
  apply in_downto in H1. destruct (run_prefix Space line n1) as [Hb1 Hl1]; [lia|].
  cbn [record_capture] in Hm.
  apply match_items_cons_inv in Hm as [n2 [H2 Hm]].
  apply words_inv in H2 as [w [Hw [Hsw ->]]].
  apply startsWith_take in Hsw. cbn [record_capture app] in Hm. rewrite Hsw in Hm.
  apply match_items_cons_inv in Hm as [n3 [H3 Hm]].
  apply in_downto in H3.
  destruct (run_prefix Space (drop (length w) (drop n1 line)) n3) as [Hb3 Hl3];
    [lia|].
  cbn [record_capture] in Hm.
  apply match_items_cons_inv in Hm as [n4 [H4 Hm]].
  apply in_downto in H4.
  destruct (run_prefix (Except colon)
              (drop n3 (drop (length w) (drop n1 line))) n4) as [Hb4 Hl4]; [lia|].
  cbn [record_capture app] in Hm.
  apply match_items_cons_inv in Hm as [n5 [H5 Hm]].
  apply one_inv in H5 as [c [s5 [Hs5 [Hc ->]]]].
  apply N.eqb_eq in Hc. subst c. cbn [record_capture] in Hm.
  rewrite Hs5 in Hm. cbn [drop] in Hm. rewrite drop_0 in Hm.
  apply match_items_cons_inv in Hm as [n6 [H6 Hm]].
  apply in_downto in H6. destruct (run_prefix Space s5 n6) as [Hb6 Hl6]; [lia|].
  cbn [record_capture] in Hm.
  apply match_items_cons_inv in Hm as [n7 [H7 Hm]].
  apply eol_inv in H7 as [Hend ->]. cbn [match_items] in Hm.
  injection Hm as <-.
  set (s1 := drop n1 line) in *.
  set (s2 := drop (length w) s1) in *.
  set (s3 := drop n3 s2) in *.
  exists {| indent := take n1 line; keywordText := w; gap := take n3 s2;
            nameText := take n4 s3; trailing := s5 |}.
  assert (Hn1 : length (take n1 line) = n1) by (rewrite length_take; lia).
  assert (Hn3 : length (take n3 s2) = n3) by (rewrite length_take; lia).
  assert (Hn4 : length (take n4 s3) = n4) by (rewrite length_take; lia).
  split; [|split].
  - unfold wellShaped, blank. cbn [indent keywordText gap nameText trailing].
    split; [exact Hb1|]. split; [exact Hw|].
    split; [apply nonempty_length; lia|]. split; [exact Hb3|].
    split; [apply nonempty_length; lia|].
    split; [now apply except_colon_all|].
    rewrite <- (take_drop n6 s5), Hend, app_nil_r. exact Hb6.
  - unfold assemble. cbn [indent keywordText gap nameText trailing].
    rewrite <- Hs5, take_drop. subst s3. rewrite take_drop. subst s2.
    rewrite <- Hsw at 1. rewrite take_drop. subst s1. now rewrite take_drop.
  - unfold nameColumn. cbn [indent keywordText gap nameText trailing].
    rewrite Hn1, Hn3. repeat f_equal; lia.
Qed.

(** X9: whatever the declaration pattern matches is a header: the line is
    indent, a declarations keyword, a non-empty gap of white space, a
    non-empty name without colon, a colon and trailing white space; the two
    captures are the keyword and the name, at their columns. *)
Theorem declaration_match_shape (line : jsstring) (caps : list capture) :
  exec declarationPattern line = Some caps ->
  exists h,
    wellShaped h /\ line = assemble h
    /\ caps = [{| cap_index := length (indent h); cap_text := keywordText h |};
               {| cap_index := nameColumn h; cap_text := nameText h |}].
Proof. exact (header_of_match line caps). Qed.

Lemma declaration_match_shape_witness :
  exists h,
    wellShaped h /\ u16 "  page Sign Up: " = assemble h
    /\ [{| cap_index := 2; cap_text := u16 "page" |};
        {| cap_index := 7; cap_text := u16 "Sign Up" |}]
       = [{| cap_index := length (indent h); cap_text := keywordText h |};
          {| cap_index := nameColumn h; cap_text := nameText h |}].
Proof.
  apply (declaration_match_shape (u16 "  page Sign Up: ")). reflexivity.
Defined.

Lemma accepts_eol : accepts [Plain Eol] [].
Proof. intros pos caps. exists caps. reflexivity. Qed.

Lemma accepts_many (it : item) (k : cclass) (least : nat) (rest : pattern)
    (u v : jsstring) :
  node_of it = Many k least -> forallb (in_class k) u = true ->
  (least <= length u)%nat -> accepts rest v -> accepts (it :: rest) (u ++ v).
Proof.
  intros Hit Hu Hle Hrest pos caps.
  destruct (Hrest (pos + length u)%nat
              (record_capture it pos (take (length u) (u ++ v)) caps)) as [out Hout].
  apply (match_items_cons_found it rest pos (u ++ v) caps out (length u)).
  - rewrite Hit. apply in_downto. split; [assumption|now apply run_app_ge].
  - now rewrite drop_app_length.
Qed.

Lemma accepts_one (k : cclass) (rest : pattern) (c : char16) (s : jsstring) :
  in_class k c = true -> accepts rest s -> accepts (Plain (One k) :: rest) (c :: s).
Proof.
  intros Hc Hrest pos caps. rewrite one_step by assumption. apply Hrest.
Qed.

Lemma accepts_words (it : item) (ws : list jsstring) (rest : pattern)
    (w s : jsstring) :
  node_of it = Words ws -> In w ws -> accepts rest s ->
  accepts (it :: rest) (w ++ s).
Proof.
  intros Hit Hw Hrest pos caps.
  destruct (Hrest (pos + length w)%nat
              (record_capture it pos (take (length w) (w ++ s)) caps)) as [out Hout].
  apply (match_items_cons_found it rest pos (w ++ s) caps out (length w)).
  - rewrite Hit. apply words_found; [assumption|].
    apply startsWith_take. apply take_app_length.
  - now rewrite drop_app_length.
Qed.

(** X10: the declaration pattern matches a line exactly when the line has
    the header shape. *)
Theorem declaration_header_iff (line : jsstring) :
  test declarationPattern line = true
  <-> exists h, wellShaped h /\ line = assemble h.
Proof.
  split.
  - unfold test. destruct (exec declarationPattern line) as [caps|] eqn:E;
      [|discriminate].
    intros _. destruct (header_of_match line caps E) as [h [Hh [Hl _]]].
    eauto.
  - intros [h [[Hi [Hk [Hg [Hgb [Hn [Hnc Ht]]]]]] ->]].
    assert (Hacc : accepts
                     [Plain (Many Space 0);
                      Capture (Words (map u16
                        ["app"; "domain"; "feature"; "model"; "component";
                         "page"; "request"; "response"; "route"; "auth";
                         "guard"; "form"; "service"; "repository"; "config";
                         "event"; "state"]%string));
                      Plain (Many Space 1);
                      Capture (Many (Except colon) 1);
                      Plain (One (Only colon)); Plain (Many Space 0); Plain Eol]
                     (assemble h)).
    { unfold assemble.
      eapply accepts_many; [reflexivity|exact Hi|lia|].
      eapply accepts_words; [reflexivity|exact Hk|].
      eapply accepts_many;
        [reflexivity|exact Hgb|now apply nonempty_length|].
      eapply accepts_many;
        [reflexivity|now apply except_colon_all|now apply nonempty_length|].
      apply accepts_one; [reflexivity|].
      rewrite <- (app_nil_r (trailing h)).
      eapply accepts_many; [reflexivity|exact Ht|lia|]. apply accepts_eol. }
    destruct (Hacc 0%nat []) as [out Hout].
    apply (exec_at _ _ 0%nat out); [lia|].
    unfold declarationPattern. rewrite drop_0, bol_step. exact Hout.
Qed.

(** *** Where the range lies *)

Lemma occurrence_head (s p : jsstring) (c : char16) (rest : jsstring) (j : nat) :
  p = c :: rest -> take (length p) (drop j s) = p -> s !! j = Some c.
Proof.
  intros -> H.
  assert (H0 : drop j s !! 0%nat = Some c).
  { destruct (drop j s) as [|x t]; [discriminate|].
    simpl in H. injection H as -> _. reflexivity. }
  now rewrite lookup_drop, Nat.add_0_r in H0.
Qed.

(** When the name starts with a unit that is not white space and does
    not occur in the keyword (a capital letter, say), the search for the
    text of the name finds the name itself: the range of the diagnostic is
    the captured name, column for column. *)
Lemma fresh_first_unit_found_at_name (line : jsstring)
    (keyword name : capture) (c : char16) (rest : jsstring) :
  exec declarationPattern line = Some [keyword; name] ->
  cap_text name = c :: rest ->
  is_white_space c = false -> ~ In c (cap_text keyword) ->
  indexOf line (cap_text name) = Z.of_nat (cap_index name)
  /\ forall lineNumber diagnostics,
       checkLine line lineNumber diagnostics
       = if includes (cap_text name) [space]
            && negb (startsWith (cap_text name) [dquote])
         then diagnostics
              ++ [warningAt (Z.of_nat lineNumber) (Z.of_nat (cap_index name))
                    (Z.of_nat (cap_index name)
                     + Z.of_nat (length (cap_text name)))
                    (cap_text keyword) (cap_text name)]
         else diagnostics.
Proof.
  intros Hexec Hname Hc Hkw.
  assert (Hidx : indexOf line (cap_text name) = Z.of_nat (cap_index name)).
  { destruct (header_of_match line _ Hexec) as [h [Hh [Hline Hcaps]]].
    destruct (declaration_captures line _ Hexec) as [k' [n' [Heq [_ Hloc]]]].
    injection Heq as <- <-.
    assert (Hkt : cap_text keyword = keywordText h) by now injection Hcaps as -> _.
    assert (Hni : cap_index name = nameColumn h) by now injection Hcaps as _ ->.
    destruct (indexOf_found line (cap_text name) (cap_index name) Hloc)
      as [j [Hj [Hle Hat]]].
    rewrite Hj. f_equal.
    destruct (Nat.eq_dec j (cap_index name)) as [|Hne]; [assumption|exfalso].
    pose proof (occurrence_head line _ c rest j Hname Hat) as Hlook.
    assert (Hlt : (j < length (indent h ++ keywordText h ++ gap h))%nat).
    { rewrite !length_app. rewrite Hni in Hle, Hne. unfold nameColumn in *. lia. }
    rewrite Hline in Hlook. unfold assemble in Hlook.
    replace (indent h ++ keywordText h ++ gap h ++ nameText h
             ++ colon :: trailing h)
      with ((indent h ++ keywordText h ++ gap h) ++ nameText h
            ++ colon :: trailing h) in Hlook by (now rewrite <- !app_assoc).
    unfold jsstring, char16 in Hlook.
    rewrite lookup_app_l in Hlook by assumption.
    apply list_elem_of_lookup_2, list_elem_of_In in Hlook.
    destruct Hh as [Hi [_ [_ [Hg _]]]]. unfold blank in *.
    rewrite forallb_forall in Hi, Hg.
    rewrite !in_app_iff in Hlook. destruct Hlook as [H|[H|H]].
    - apply Hi in H. congruence.
    - apply Hkw. now rewrite Hkt.
    - apply Hg in H. congruence. }
  split; [exact Hidx|].
  intros lineNumber diagnostics. unfold checkLine. rewrite Hexec, Hidx.
  reflexivity.
Qed.

(** X11: when the name starts with a unit that is not white space and does
    not occur in the keyword (a capital letter, say), the search for the
    text of the name finds the name itself: the range of the diagnostic is
    the captured name, column for column. *)
Theorem range_on_name_when_first_unit_fresh (line : jsstring)
    (keyword name : capture) (c : char16) (rest : jsstring) :
  exec declarationPattern line = Some [keyword; name] ->
  cap_text name = c :: rest ->
  is_white_space c = false -> ~ In c (cap_text keyword) ->
  indexOf line (cap_text name) = Z.of_nat (cap_index name)
  /\ forall lineNumber diagnostics,
       checkLine line lineNumber diagnostics
       = if includes (cap_text name) [space]
            && negb (startsWith (cap_text name) [dquote])
         then diagnostics
              ++ [warningAt (Z.of_nat lineNumber) (Z.of_nat (cap_index name))
                    (Z.of_nat (cap_index name)
                     + Z.of_nat (length (cap_text name)))
                    (cap_text keyword) (cap_text name)]
         else diagnostics.
Proof. exact (fresh_first_unit_found_at_name line keyword name c rest). Qed.

Lemma range_on_name_when_first_unit_fresh_witness :
  indexOf (u16 "model User Profile:") (u16 "User Profile") = 6.
Proof.
  apply (proj1 (range_on_name_when_first_unit_fresh
                  (u16 "model User Profile:")
                  {| cap_index := 0; cap_text := u16 "model" |}
                  {| cap_index := 6; cap_text := u16 "User Profile" |}
                  85%N (u16 "ser Profile") eq_refl eq_refl eq_refl
                  ltac:(vm_compute; intuition discriminate))).
Defined.

(** *** The scan, line by line *)

Lemma forEach_indexed_step (i : nat) (l : jsstring) (ls : list jsstring) :
  forEach_indexed i (l :: ls) checkLine []
  = checkLine l i [] ++ forEach_indexed (S i) ls checkLine [].
Proof.
  cbn [forEach_indexed].
  rewrite (forEach_indexed_checkLine (S i) ls (checkLine l i [])).
  now rewrite (forEach_indexed_checkLine (S i) ls []).
Qed.

Lemma checkLine_single (l : jsstring) (i : nat) :
  checkLine l i [] = []
  \/ exists d, checkLine l i [] = [d] /\ lineOf d = Z.of_nat i.
Proof.
  unfold checkLine, push.
  destruct (exec declarationPattern l) as [[|k [|n [|e caps]]]|]; auto.
  destruct (includes _ _ && negb _); auto.
  right. eexists. split; reflexivity.
Qed.

Lemma checkLine_shift (l : jsstring) (k i : nat) :
  checkLine l (k + i) []
  = map (shiftLines (Z.of_nat k)) (checkLine l i []).
Proof.
  unfold checkLine, push.
  destruct (exec declarationPattern l) as [[|kw [|n [|e caps]]]|]; auto.
  destruct (includes _ _ && negb _); auto.
  cbn [app map]. unfold shiftLines.
  cbn [severity range range_start range_end line character message source].
  repeat f_equal; lia.
Qed.

Lemma scan_lines_member (i : nat) (lines : list jsstring) (d : Diagnostic) :
  In d (forEach_indexed i lines checkLine []) ->
  exists n l, lines !! n = Some l /\ In d (checkLine l (i + n) []).
Proof.
  revert i. induction lines as [|l ls IH]; intros i; [intros []|].
  rewrite forEach_indexed_step, in_app_iff. intros [H|H].
  - exists 0%nat, l. rewrite Nat.add_0_r. now split.
  - destruct (IH (S i) H) as [n [l' [Hl Hd]]].
    exists (S n), l'. split; [exact Hl|].
    now replace (i + S n)%nat with (S i + n)%nat by lia.
Qed.

Lemma scan_lines_sorted (i : nat) (lines : list jsstring) :
  let ds := forEach_indexed i lines checkLine [] in
  Forall (fun d => Z.of_nat i <= lineOf d) ds
  /\ StronglySorted (fun a b => lineOf a < lineOf b) ds
  /\ (length ds <= length lines)%nat.
Proof.
  revert i. induction lines as [|l ls IH]; intros i; cbv zeta.
  - cbn [forEach_indexed]. repeat split; constructor.
  - rewrite forEach_indexed_step.
    destruct (IH (S i)) as [Hlow [Hsorted Hlen]].
    destruct (checkLine_single l i) as [->|[d [-> Hd]]]; cbn [app length].
    + split; [|split; [assumption|lia]].
      eapply Forall_impl; [exact Hlow|]. cbv beta. intros; lia.
    + split; [|split; [|lia]].
      * constructor; [lia|].
        eapply Forall_impl; [exact Hlow|]. cbv beta. intros; lia.
      * constructor; [assumption|].
        eapply Forall_impl; [exact Hlow|]. cbv beta. intros; lia.
Qed.

Lemma scan_lines_shift (k i : nat) (lines : list jsstring) :
  forEach_indexed (k + i) lines checkLine []
  = map (shiftLines (Z.of_nat k)) (forEach_indexed i lines checkLine []).
Proof.
  revert i. induction lines as [|l ls IH]; intros i; [reflexivity|].
  rewrite !forEach_indexed_step, map_app, <- checkLine_shift.
  f_equal. replace (S (k + i)) with (k + S i)%nat by lia. apply IH.
Qed.

Lemma scan_lines_app (i : nat) (l1 l2 : list jsstring) :
  forEach_indexed i (l1 ++ l2) checkLine []
  = forEach_indexed i l1 checkLine []
    ++ forEach_indexed (i + length l1) l2 checkLine [].
Proof.
  revert i. induction l1 as [|l ls IH]; intros i.
  - cbn [app length forEach_indexed]. now rewrite Nat.add_0_r.
  - cbn [app length]. rewrite !forEach_indexed_step, IH, <- app_assoc.
    do 2 f_equal. f_equal. lia.
Qed.

Lemma split_app_newline (t1 t2 : jsstring) :
  split newline (t1 ++ newline :: t2) = split newline t1 ++ split newline t2.
Proof.
  induction t1 as [|c t IH]; [reflexivity|].
  cbn [app split]. destruct (c =? newline)%N.
  - now rewrite IH.
  - rewrite IH. pose proof (split_not_empty newline t) as Hne.
    destruct (split newline t); [simpl in Hne; lia|reflexivity].
Qed.

Lemma split_units (sep c : char16) (s l : jsstring) :
  In l (split sep s) -> In c l -> In c s.
Proof.
  revert l. induction s as [|x s IH]; intros l; cbn [split].
  - intros [<-|[]] [].
  - destruct (x =? sep)%N.
    + intros [<-|Hl] Hc; [destruct Hc|]. right. now apply (IH l).
    + destruct (split sep s) as [|piece pieces] eqn:E.
      * intros [<-|[]] [->|[]]. now left.
      * intros [<-|Hl] Hc.
        -- destruct Hc as [->|Hc]; [now left|].
           right. apply (IH piece); [now left|assumption].
        -- right. apply (IH l); [now right|assumption].
Qed.

(** Every published diagnostic is the Warning of one header line of the
    document: its line number is the index of that line, its message is made
    of the keyword and the name of the header, the name holds a space and
    does not start with a quote, and its range lies inside the line, starts
    at or before the column of the name and covers text equal to the
    name. *)
Lemma diagnostic_origin (text : jsstring) (d : Diagnostic) :
  In d (scan text) ->
  exists (n : nat) (l : jsstring) (h : headerParts) (from : nat),
    split newline text !! n = Some l
    /\ wellShaped h /\ l = assemble h
    /\ In space (nameText h)
    /\ (forall rest, nameText h <> dquote :: rest)
    /\ (from <= nameColumn h)%nat
    /\ (from + length (nameText h) <= length l)%nat
    /\ substring l (Z.of_nat from)
         (Z.of_nat from + Z.of_nat (length (nameText h))) = nameText h
    /\ d = warningAt (Z.of_nat n) (Z.of_nat from)
             (Z.of_nat from + Z.of_nat (length (nameText h)))
             (keywordText h) (nameText h).
Proof.
  unfold scan. intros Hd.
  apply scan_lines_member in Hd as [n [l [Hl Hd]]]. cbn [Nat.add] in Hd.
  destruct (exec declarationPattern l) as [caps|] eqn:E;
    [|rewrite (checkLine_no_header l n [] E) in Hd; destruct Hd].
  destruct (checkLine_header l n [] caps E)
    as [keyword [name [from [Hcaps [Hidx [Hle [Hsub Hcheck]]]]]]].
  destruct (header_of_match l caps E) as [h [Hh [Hline Hcaps']]].
  rewrite Hcaps in Hcaps'.
  assert (Hkt : cap_text keyword = keywordText h) by now injection Hcaps' as -> _.
  assert (Hnt : cap_text name = nameText h) by now injection Hcaps' as _ ->.
  assert (Hni : cap_index name = nameColumn h) by now injection Hcaps' as _ ->.
  rewrite Hcheck, Hkt, Hnt in Hd. rewrite Hnt in Hsub. rewrite Hni in Hle.
  destruct (includes (nameText h) [space]) eqn:Hinc; [|destruct Hd].
  destruct (startsWith (nameText h) [dquote]) eqn:Hq; [destruct Hd|].
  cbn [andb negb app] in Hd. destruct Hd as [<-|[]].
  exists n, l, h, from.
  apply includes_unit in Hinc.
  repeat (split; [assumption|]).
  split.
  { intros rest Hr. assert (startsWith (nameText h) [dquote] = true)
      by (apply startsWith_unit; eauto). congruence. }
  split; [assumption|]. split; [|split; [assumption|reflexivity]].
  rewrite substring_take in Hsub. apply (f_equal length) in Hsub.
  rewrite length_take, length_drop in Hsub.
  assert (1 <= length (nameText h))%nat
    by (destruct (nameText h); [destruct Hinc|simpl; lia]).
  lia.
Qed.

(** X12: every published diagnostic is the Warning of one header line of the
    document: its line number is the index of that line, its message is made
    of the keyword and the name of the header, the name holds a space and
    does not start with a quote, and its range lies inside the line, starts
    at or before the column of the name and covers text equal to the
    name. *)
Theorem published_diagnostic_well_formed (text : jsstring) (d : Diagnostic) :
  In d (scan text) ->
  exists (n : nat) (l : jsstring) (h : headerParts) (from : nat),
    split newline text !! n = Some l
    /\ wellShaped h /\ l = assemble h
    /\ In space (nameText h)
    /\ (forall rest, nameText h <> dquote :: rest)
    /\ (from <= nameColumn h)%nat
    /\ (from + length (nameText h) <= length l)%nat
    /\ substring l (Z.of_nat from)
         (Z.of_nat from + Z.of_nat (length (nameText h))) = nameText h
    /\ d = warningAt (Z.of_nat n) (Z.of_nat from)
             (Z.of_nat from + Z.of_nat (length (nameText h)))
             (keywordText h) (nameText h).
Proof. exact (diagnostic_origin text d). Qed.

Lemma published_diagnostic_well_formed_witness :
  exists (n : nat) (l : jsstring) (h : headerParts) (from : nat),
    split newline (u16 "app X:" ++ [newline] ++ u16 "  page Sign Up:") !! n
    = Some l
    /\ wellShaped h /\ l = assemble h
    /\ In space (nameText h)
    /\ (forall rest, nameText h <> dquote :: rest)
    /\ (from <= nameColumn h)%nat
    /\ (from + length (nameText h) <= length l)%nat
    /\ substring l (Z.of_nat from)
         (Z.of_nat from + Z.of_nat (length (nameText h))) = nameText h
    /\ warningAt 1 7 14 (u16 "page") (u16 "Sign Up")
       = warningAt (Z.of_nat n) (Z.of_nat from)
           (Z.of_nat from + Z.of_nat (length (nameText h)))
           (keywordText h) (nameText h).
Proof.
  apply (published_diagnostic_well_formed
           (u16 "app X:" ++ [newline] ++ u16 "  page Sign Up:")).
  vm_compute. now left.
Defined.

(** X13: the diagnostics are published in line order with at most one per
    line: their line numbers increase strictly, and there are no more of
    them than lines. *)
Theorem scan_one_per_line_in_order (text : jsstring) :
  StronglySorted (fun a b => lineOf a < lineOf b) (scan text)
  /\ (length (scan text) <= length (split newline text))%nat.
Proof.
  unfold scan. destruct (scan_lines_sorted 0 (split newline text)) as [_ H].
  exact H.
Qed.

(** X14: a text without any space (U+0020) or without any colon gets no
    diagnostic; in particular the empty text gets none. *)
Theorem scan_needs_space_and_colon (text : jsstring) :
  ~ In space text \/ ~ In colon text -> scan text = [].
Proof.
  intros H. destruct (scan text) as [|d ds] eqn:E; [reflexivity|exfalso].
  destruct (diagnostic_origin text d)
    as [n [l [h [from [Hl [_ [Hline [Hsp _]]]]]]]].
  { rewrite E. now left. }
  apply list_elem_of_lookup_2, list_elem_of_In in Hl.
  destruct H as [H|H]; apply H; apply (split_units newline _ text l Hl);
    rewrite Hline; unfold assemble; rewrite !in_app_iff.
  - tauto.
  - do 4 right. now left.
Qed.

Lemma scan_needs_space_and_colon_witness :
  scan (u16 "model User Profile") = [].
Proof.
  apply (scan_needs_space_and_colon (u16 "model User Profile")).
  right. vm_compute. intuition discriminate.
Defined.

(** X15: validation is local to lines: the diagnostics of two texts joined by
    a line break are those of the first text followed by those of the
    second, moved down by the number of lines of the first. *)
Theorem scan_app (t1 t2 : jsstring) :
  scan (t1 ++ newline :: t2)
  = scan t1
    ++ map (shiftLines (Z.of_nat (length (split newline t1)))) (scan t2).
Proof.
  unfold scan. rewrite split_app_newline, scan_lines_app.
  f_equal. cbn [Nat.add].
  rewrite <- (scan_lines_shift (length (split newline t1)) 0).
  now rewrite Nat.add_0_r.
Qed.

(** ** After a unit that starts nothing *)

Lemma last_unit_cases {A} (a b l : list A) (c x : A) :
  a ++ [c] = b ++ x :: l -> (l = [] /\ c = x) \/ In c l.
Proof.
  destruct l as [|y l'] using rev_ind.
  - intros H. apply app_inj_tail in H as [_ ->]. now left.
  - intros H. right.
    replace (b ++ x :: l' ++ [y]) with ((b ++ x :: l') ++ [y]) in H
      by (now rewrite <- app_assoc).
    apply app_inj_tail in H as [_ ->]. apply in_or_app. right. now left.
Qed.

Lemma blank_units (s : jsstring) (c : char16) :
  forallb is_white_space s = true -> In c s -> is_white_space c = true.
Proof. intros H Hin. rewrite forallb_forall in H. now apply H. Qed.

(** X16: when the unit before the cursor is neither a colon, nor white space,
    nor a word unit (a quote, a slash, a dash, ...), only the modifiers are
    offered. *)
Theorem completion_after_other_unit (documents : gmap jsstring TextDocument)
    (params : TextDocumentPositionParams) (document : TextDocument)
    (lineText pre : jsstring) (c : char16) :
  documents !! textDocument params = Some document ->
  at_index (split newline (getText document)) (line (position params))
  = Some lineText ->
  substring lineText 0 (character (position params)) = pre ++ [c] ->
  c <> colon -> is_white_space c = false -> is_word_char c = false ->
  outcome (onCompletion documents params) = Returned (offer Modifiers).
Proof.
  intros Hd Hline Hp Hcolon Hspace Hword.
  rewrite (onCompletion_run _ _ document lineText Hd Hline).
  cbn [outcome]. rewrite Hp, ruleUnion_cases. f_equal.
  rewrite (lineStart_not_blank (pre ++ [c]) c)
    by (try assumption; apply in_or_app; right; now left).
  destruct (test afterColonPattern (pre ++ [c])) eqn:Ea.
  { exfalso. apply afterColon_fires_iff in Ea as [p [ws [Heq Hws]]].
    apply last_unit_cases in Heq as [[_ ->]|Hin]; [now apply Hcolon|].
    rewrite (blank_units ws c Hws Hin) in Hspace. discriminate. }
  destruct (test typePattern (pre ++ [c])) eqn:Et; [exfalso|reflexivity].
  apply typePosition_fires_iff in Et as [p [ws [w [Heq [Hws Hw]]]]].
  apply last_unit_cases in Heq as [[_ ->]|Hin]; [now apply Hcolon|].
  apply in_app_iff in Hin as [Hin|Hin].
  - rewrite (blank_units ws c Hws Hin) in Hspace. discriminate.
  - rewrite forallb_forall in Hw. rewrite (Hw c Hin) in Hword. discriminate.
Qed.

Lemma completion_after_other_unit_witness :
  outcome (onCompletion (sampleStore (u16 "path: /")) (requestAt 0 7))
  = Returned (offer Modifiers).
Proof.
  apply (completion_after_other_unit (sampleStore (u16 "path: /"))
           (requestAt 0 7) (sampleDocument (u16 "path: /"))
           (u16 "path: /") (u16 "path: ") 47%N).
  - apply sampleStore_lookup.
  - reflexivity.
  - reflexivity.
  - discriminate.
  - reflexivity.
  - reflexivity.
Defined.

(** ** Start-up *)

(** X17: whatever the flags were before, after [onInitialize] the
    [onInitialized] handler registers for configuration changes exactly
    when the client declared [workspace.configuration] true, and listens
    for workspace-folder changes exactly when the answer of [onInitialize]
    advertised workspace-folder support, which is exactly when the client
    declared [workspace.workspaceFolders] true; the answer always announces
    incremental sync and completion with resolve, triggered by a space, a
    colon and a quote. *)
Theorem startup_follows_client (capabilities : Startup.ClientCapabilities)
    (before : Startup.Flags) :
  let flags := fst (Startup.onInitialize capabilities before) in
  let result := snd (Startup.onInitialize capabilities before) in
  (In Startup.RegisterDidChangeConfiguration (Startup.onInitialized flags)
   <-> exists w, Startup.workspace capabilities = Some w
                 /\ Startup.configuration w = Some true)
  /\ (In Startup.ListenWorkspaceFolderChanges (Startup.onInitialized flags)
      <-> Startup.workspaceFoldersSupported result = Some true)
  /\ (Startup.workspaceFoldersSupported result = Some true
      <-> exists w, Startup.workspace capabilities = Some w
                    /\ Startup.workspaceFolders w = Some true)
  /\ Startup.textDocumentSync result = Startup.Incremental
  /\ Startup.completionProvider result
     = {| Startup.resolveProvider := true;
          Startup.triggerCharacters := [[space]; [colon]; [dquote]] |}
  /\ Startup.onInitialize capabilities before
     = Startup.onInitialize capabilities Startup.initialFlags.
Proof.
  destruct capabilities as [[[[[|]|] [[|]|]]|] td]; cbn;
    repeat split; intros; try tauto; try discriminate;
    repeat match goal with
           | H : _ \/ _ |- _ => destruct H
           | H : ex _ |- _ => destruct H as [? [? ?]]
           | H : Some _ = Some _ |- _ => injection H as <-
           | H : False |- _ => destruct H
           end;
    try discriminate; cbn in *; try discriminate; eauto 6.
Qed.

(** ** Headers whose name starts with a unit that is not white space *)

Lemma run_stops (k : cclass) (u v : jsstring) (c : char16) :
  forallb (in_class k) u = true -> in_class k c = false ->
  run k (u ++ c :: v) = length u.
Proof.
  induction u as [|x u IH]; simpl; intros Hu Hc.
  - now rewrite Hc.
  - apply andb_true_iff in Hu as [Hx Hu]. rewrite Hx. now rewrite IH.
Qed.

Lemma greedy_then (it : item) (k : cclass) (least : nat) (rest : pattern)
    (pos : nat) (s : jsstring) (caps out : list capture) :
  node_of it = Many k least -> (least <= run k s)%nat ->
  match_items rest (pos + run k s) (drop (run k s) s)
    (record_capture it pos (take (run k s) s) caps) = Some out ->
  match_items (it :: rest) pos s caps = Some out.
Proof.
  intros Hit Hle Hrest. cbn [match_items]. rewrite Hit. cbn [choices].
  destruct (downto_head (run k s) least Hle) as [tl ->].
  now apply first_some_head.
Qed.

Lemma only_word_then (it : item) (ws : list jsstring) (rest : pattern)
    (pos n : nat) (s : jsstring) (caps out : list capture) :
  node_of it = Words ws -> word_choices s ws = [n] ->
  match_items rest (pos + n) (drop n s) (record_capture it pos (take n s) caps)
  = Some out ->
  match_items (it :: rest) pos s caps = Some out.
Proof.
  intros Hit Hw Hrest. cbn [match_items]. rewrite Hit. cbn [choices].
  rewrite Hw. now apply first_some_head.
Qed.

Lemma declaration_keyword_alone (keyword : jsstring) (c : char16)
    (rest : jsstring) :
  In keyword KEYWORDS.declarations -> is_white_space c = true ->
  word_choices (keyword ++ c :: rest) KEYWORDS.declarations = [length keyword]
  /\ exists x tl, keyword = x :: tl /\ is_white_space x = false.
Proof.
  intros Hk Hc.
  assert (Hne : forall x, is_word_char x = true -> (c =? x)%N = false).
  { intros x Hx. apply N.eqb_neq. intros ->.
    rewrite (word_char_not_space x Hx) in Hc. discriminate. }
  unfold KEYWORDS.declarations in Hk. cbn [map u16] in Hk.
  repeat (destruct Hk as [<-|Hk];
          [split; [vm_compute; reflexivity|eexists; eexists; split; reflexivity]|]).
  destruct Hk.
Qed.

(** On a header whose name starts with a unit that is not white space
    the pattern captures exactly the keyword and the name, at their
    columns. *)
Lemma captures_of_header (h : headerParts) (c : char16) (rest : jsstring) :
  wellShaped h -> nameText h = c :: rest -> is_white_space c = false ->
  exec declarationPattern (assemble h)
  = Some [{| cap_index := length (indent h); cap_text := keywordText h |};
          {| cap_index := nameColumn h; cap_text := nameText h |}].
Proof.
  intros [Hi [Hk [Hg [Hgb [Hn [Hnc Ht]]]]]] Hname Hc.
  destruct (gap h) as [|g gs] eqn:Egap; [contradiction|].
  assert (Hgsp : is_white_space g = true).
  { unfold blank in Hgb. simpl in Hgb. now apply andb_true_iff in Hgb as [? _]. }
  destruct (declaration_keyword_alone (keywordText h) g
              (gs ++ nameText h ++ colon :: trailing h) Hk Hgsp)
    as [Hwords [x [tl [Hkw Hx]]]].
  unfold exec. cbn [seq]. apply first_some_head. rewrite drop_0.
  unfold declarationPattern. rewrite bol_step.
  unfold assemble. rewrite Egap.
  assert (Hrun1 : run Space (indent h ++ keywordText h ++ (g :: gs)
                             ++ nameText h ++ colon :: trailing h)
                  = length (indent h)).
  { rewrite Hkw. cbn [app]. now apply run_stops. }
  eapply greedy_then; [reflexivity|lia|]. rewrite Hrun1.
  rewrite drop_app_length, take_app_length. cbn [record_capture Nat.add].
  eapply only_word_then; [reflexivity| |].
  { cbn [app]. exact Hwords. }
  rewrite drop_app_length, take_app_length. cbn [record_capture].
  assert (Hrun2 : run Space ((g :: gs) ++ nameText h ++ colon :: trailing h)
                  = length (g :: gs)).
  { rewrite Hname. cbn [app]. rewrite <- Egap in *.
    change (g :: gs ++ c :: rest ++ colon :: trailing h)
      with ((g :: gs) ++ c :: rest ++ colon :: trailing h).
    rewrite <- Egap. now apply run_stops. }
  eapply greedy_then; [reflexivity|rewrite Hrun2; simpl; lia|]. rewrite Hrun2.
  rewrite drop_app_length. cbn [record_capture].
  assert (Hrun3 : run (Except colon) (nameText h ++ colon :: trailing h)
                  = length (nameText h)).
  { apply run_stops; [now apply except_colon_all|reflexivity]. }
  eapply greedy_then;
    [reflexivity|rewrite Hrun3; now apply nonempty_length|].
  rewrite Hrun3, drop_app_length, take_app_length. cbn [record_capture].
  rewrite one_step by reflexivity.
  eapply greedy_then; [reflexivity|lia|].
  rewrite (run_all Space (trailing h) Ht), drop_all. cbn [record_capture].
  cbn [match_items node_of choices first_some].
  unfold nameColumn. rewrite Egap. reflexivity.
Qed.

(** X18: on a header whose name starts with a unit that is not white space
    the pattern captures exactly the keyword and the name, at their
    columns. *)
Theorem header_captures (h : headerParts) (c : char16) (rest : jsstring) :
  wellShaped h -> nameText h = c :: rest -> is_white_space c = false ->
  exec declarationPattern (assemble h)
  = Some [{| cap_index := length (indent h); cap_text := keywordText h |};
          {| cap_index := nameColumn h; cap_text := nameText h |}].
Proof. exact (captures_of_header h c rest). Qed.

Lemma header_captures_witness :
  exec declarationPattern
    (assemble {| indent := u16 "  "; keywordText := u16 "route";
                 gap := u16 " "; nameText := u16 "/a b";
                 trailing := [] |})
  = Some [{| cap_index := 2; cap_text := u16 "route" |};
          {| cap_index := 8; cap_text := u16 "/a b" |}].
Proof.
  apply (header_captures
           {| indent := u16 "  "; keywordText := u16 "route"; gap := u16 " ";
              nameText := u16 "/a b"; trailing := [] |} 47%N (u16 "a b")).
  - unfold wellShaped, blank. vm_compute. intuition discriminate.
  - reflexivity.
  - reflexivity.
Defined.

(** X19: every header whose name holds a space and starts with a unit that
    is neither white space nor a quote is warned: its line adds exactly one
    Warning naming the keyword and the name; when that first unit does not
    occur in the keyword the range is the name, from its first column to
    its last.  A header whose name starts with a quote, or holds no space,
    adds nothing. *)
Theorem header_warning (h : headerParts) (c : char16) (rest : jsstring)
    (lineNumber : nat) (diagnostics : list Diagnostic) :
  wellShaped h -> nameText h = c :: rest -> is_white_space c = false ->
  (In space (nameText h) -> c <> dquote ->
   exists from : nat,
     (from <= nameColumn h)%nat
     /\ (~ In c (keywordText h) -> from = nameColumn h)
     /\ checkLine (assemble h) lineNumber diagnostics
        = diagnostics
          ++ [warningAt (Z.of_nat lineNumber) (Z.of_nat from)
                (Z.of_nat from + Z.of_nat (length (nameText h)))
                (keywordText h) (nameText h)])
  /\ (c = dquote \/ ~ In space (nameText h) ->
      checkLine (assemble h) lineNumber diagnostics = diagnostics).
Proof.
  intros Hh Hname Hc.
  pose proof (captures_of_header h c rest Hh Hname Hc) as Hexec.
  destruct (checkLine_header _ lineNumber diagnostics _ Hexec)
    as [k [n [from [Hcaps [Hidx [Hle [_ Hcheck]]]]]]].
  injection Hcaps as <- <-. cbn [cap_text cap_index] in *.
  split.
  - intros Hsp Hq. exists from. split; [assumption|]. split.
    + intros Hfresh.
      destruct (fresh_first_unit_found_at_name _ _ _ c rest Hexec Hname
                  Hc Hfresh) as [Hidx' _].
      cbn [cap_text cap_index] in Hidx'. lia.
    + rewrite Hcheck. apply includes_unit in Hsp. rewrite Hsp.
      destruct (startsWith (nameText h) [dquote]) eqn:Es; [|reflexivity].
      apply startsWith_unit in Es as [r Hr]. rewrite Hname in Hr.
      injection Hr as -> _. contradiction.
  - intros [->|Hsp]; rewrite Hcheck.
    + assert (Es : startsWith (nameText h) [dquote] = true)
        by (apply startsWith_unit; eauto).
      rewrite Es. now rewrite andb_false_r.
    + destruct (includes (nameText h) [space]) eqn:E; [|reflexivity].
      apply includes_unit in E. contradiction.
Qed.

Lemma header_warning_witness :
  exists from : nat,
    (from <= 8)%nat
    /\ checkLine (u16 "  route /a b:") 3 []
       = [warningAt 3 (Z.of_nat from) (Z.of_nat from + 4)
            (u16 "route") (u16 "/a b")].
Proof.
  destruct (proj1 (header_warning
                     {| indent := u16 "  "; keywordText := u16 "route";
                        gap := u16 " "; nameText := u16 "/a b";
                        trailing := [] |} 47%N (u16 "a b") 3 []
                     ltac:(unfold wellShaped, blank; vm_compute;
                           intuition discriminate)
                     eq_refl eq_refl)
              ltac:(vm_compute; tauto) ltac:(discriminate))
    as [from [Hle [_ Hcheck]]].
  exists from. split; [exact Hle|exact Hcheck].
Defined.
